(** * latex_history_anim.py: a shallow embedding and its properties

    The script walks the git history of a LaTeX file, builds every commit,
    rasterises the pages with pdftoppm, composes the pages side by side with
    PIL and stitches the composed strips into an animation.

    The embedding follows [src/latex_history_anim.py] function by function:
    - Python exceptions are an error monad ([result]);
    - Python floats are IEEE-754 binary64, taken from the Standard Library's
      [SpecFloat] (the reference semantics of Rocq's primitive floats);
    - PIL images are reduced to what the script reads: mode and size;
    - a character of a [string] is a code point below 256, so that slicing,
      concatenation and [str.strip()] are Python's on the strings the type
      holds;
    - the file system, [shutil.which], git and the LaTeX tools are oracles
      collected in a [World] record, and what argparse makes of the command
      line is an argument of [main]; the driver threads the checked-out
      reference and the list of git commands through the run. *)

From Stdlib Require Import ZArith Lia Bool.
From Stdlib Require Import SpecFloat.
From stdpp Require Import base list strings gmap pretty.

Open Scope Z_scope.

(** ** Exceptions *)

(** [CalledProcessError] carries the text of [str(e)]. *)
Inductive exn :=
| CalledProcessError (text : string)
| RuntimeError (msg : string)
| ValueError (msg : string)
| ZeroDivisionError
| OverflowError
| OSError (what : string).

Inductive result (A : Type) :=
| Ok (a : A)
| Raise (e : exn).
Arguments Ok {A} a.
Arguments Raise {A} e.

#[global] Instance result_ret : MRet result := fun _ a => Ok a.
#[global] Instance result_bind : MBind result := fun _ _ k m =>
  match m with
  | Ok a => k a
  | Raise e => Raise e
  end.

Definition is_ok {A} (r : result A) : bool :=
  match r with Ok _ => true | Raise _ => false end.

(** A [for] loop whose body may raise: the first exception ends the loop. *)
Fixpoint for_each {A B} (f : A -> result B) (l : list A) : result (list B) :=
  match l with
  | [] => Ok []
  | a :: l' => b ← f a; bs ← for_each f l'; Ok (b :: bs)
  end.

(** ** Python values used by the script *)

(** [l[:stop]] *)
Definition slice_to {A} (l : list A) (stop : Z) : list A :=
  let n := Z.of_nat (length l) in
  let stop' := if stop <? 0 then Z.max (stop + n) 0 else Z.min stop n in
  take (Z.to_nat stop') l.

(** [sum(...)] and [max(...)] over a generator of ints *)
Definition py_sum (l : list Z) : Z := foldl Z.add 0 l.

Definition py_max (l : list Z) : result Z :=
  match l with
  | [] => Raise (ValueError "max() arg is an empty sequence")
  | x :: l' => Ok (foldl Z.max x l')
  end.

(** *** Floats: IEEE-754 binary64 *)

Module PyFloat.

Definition prec : Z := 53.
Definition emax : Z := 1024.

Abbreviation float := spec_float.

(** [float(z)], also the implicit conversion of an int operand *)
Definition of_int (z : Z) : result float :=
  match binary_normalize prec emax z 0 false with
  | S754_infinity _ => Raise OverflowError
  | f => Ok f
  end.

Definition is_zero (f : float) : bool :=
  match f with S754_zero _ => true | _ => false end.

(** [a / b] on floats *)
Definition div (a b : float) : result float :=
  if is_zero b then Raise ZeroDivisionError else Ok (SFdiv prec emax a b).

(** [a * b] on floats *)
Definition mul (a b : float) : float := SFmul prec emax a b.

(** [int(f)]: truncation towards zero *)
Definition to_int (f : float) : result Z :=
  match f with
  | S754_zero _ => Ok 0
  | S754_finite s m e => Ok (cond_Zopp s (Z.shiftl (Z.pos m) e))
  | S754_infinity _ => Raise OverflowError
  | S754_nan => Raise (ValueError "cannot convert float NaN to integer")
  end.

(** Floats that are zero, negative or not a number. *)
Definition nonpos (f : float) : Prop :=
  match f with
  | S754_zero _ | S754_nan => True
  | S754_finite s _ _ | S754_infinity s => s = true
  end.

End PyFloat.

(** ** PIL images: mode and size *)

Record Image := { mode : string; width : Z; height : Z }.

(** Sizes PIL can hold: C ints, never negative. *)
Definition image_wf (im : Image) : Prop :=
  0 <= width im < 2 ^ 31 /\ 0 <= height im < 2 ^ 31.

(** [im.convert(m)] *)
Definition convert (m : string) (im : Image) : Image :=
  {| mode := m; width := width im; height := height im |}.

(** [im.resize((new_w, new_h), Image.LANCZOS)]: PIL copies the image when
    the size does not change and refuses a side below one pixel. *)
Definition resize (im : Image) (new_w new_h : Z) : result Image :=
  if (width im =? new_w) && (height im =? new_h) then Ok im
  else if (new_w <? 1) || (new_h <? 1)
       then Raise (ValueError "height and width must be > 0")
       else Ok {| mode := mode im; width := new_w; height := new_h |}.

(** [Image.new(m, (w, h), color)] *)
Definition Image_new (m : string) (w h : Z) : result Image :=
  if (w <? 0) || (h <? 0)
  then Raise (ValueError "Width and height must be >= 0")
  else Ok {| mode := m; width := w; height := h |}.

(** An element of the [images] argument: a path or an opened image. *)
Inductive image_arg :=
| ArgPath (p : string)
| ArgImage (im : Image).

(** ** pdf_to_png_pages *)

(** [Path(f"{out_prefix}-{i}.png")] *)
Definition page_path (out_prefix : string) (i : Z) : string :=
  out_prefix +:+ "-" +:+ pretty i +:+ ".png".

(** The collecting loop over [range(1, max_pages + 1)], with its [break]. *)
Fixpoint collect_pages (files : gset string) (out_prefix : string)
    (pages : list Z) : list string :=
  match pages with
  | [] => []
  | i :: pages' =>
      let p := page_path out_prefix i in
      if bool_decide (p ∈ files)
      then p :: collect_pages files out_prefix pages'
      else []
  end.

(** [which] is [shutil.which]; [run cmd] runs the command with [check=True]
    and gives the set of files that exist afterwards. *)
Definition pdf_to_png_pages (which : string -> option string)
    (run : list string -> result (gset string))
    (pdf_path out_prefix : string) (dpi max_pages : Z) : result (list string) :=
  match which "pdftoppm" with
  | None =>
      Raise (RuntimeError "pdftoppm not found (required). Install Poppler utilities.")
  | Some pdftoppm =>
      files ← run [pdftoppm; "-png"; "-r"; pretty dpi; pdf_path; out_prefix];
      Ok (collect_pages files out_prefix (seqZ 1 max_pages))
  end.

(** ** compose_side_by_side *)

(** The body of the scaling loop, lines 157-163. *)
Definition scale_image (max_height : Z) (im : Image) : result Image :=
  let w := width im in
  let h := height im in
  if max_height <? h then
    fh ← PyFloat.of_int h;
    fm ← PyFloat.of_int max_height;
    scale ← PyFloat.div fm fh;
    fw ← PyFloat.of_int w;
    new_w ← PyFloat.to_int (PyFloat.mul fw scale);
    new_h ← PyFloat.to_int (PyFloat.mul fh scale);
    resize im new_w new_h
  else Ok im.

(** The body of the opening loop, lines 147-149; [open] is [Image.open]. *)
Definition load_image (open : string -> result Image) (a : image_arg)
    : result Image :=
  im ← match a with
       | ArgPath p => open p
       | ArgImage im => Ok im
       end;
  Ok (convert "RGBA" im).

(** The paste loop only writes pixels of [composed]; its size, the part of
    an image kept here, is the one given to [Image.new]. *)
Definition compose_side_by_side (open : string -> result Image)
    (images : list image_arg) (max_pages max_height gap : Z) : result Image :=
  imgs ← for_each (load_image open) (slice_to images max_pages);
  match imgs with
  | [] => Raise (ValueError "No images to compose.")
  | _ =>
      scaled ← for_each (scale_image max_height) imgs;
      let total_w := py_sum (width <$> scaled) + gap * (Z.of_nat (length scaled) - 1) in
      max_h ← py_max (height <$> scaled);
      composed ← Image_new "RGBA" total_w max_h;
      Ok (convert "RGB" composed)
  end.

(** ** Strings and paths *)

(** [c.isspace()], the characters [str.strip()] removes: among the code
    points below 256 these are U+0009 to U+000D, U+001C to U+001F, U+0020,
    U+0085 and U+00A0. *)
Definition is_space (c : Ascii.ascii) : bool :=
  let n := Ascii.nat_of_ascii c in
  ((9 <=? n) && (n <=? 13) || (28 <=? n) && (n <=? 32)
   || (n =? 133) || (n =? 160))%nat.

Fixpoint lstrip (s : string) : string :=
  match s with
  | String c s' => if is_space c then lstrip s' else s
  | EmptyString => EmptyString
  end.

Definition strip (s : string) : string :=
  String.rev (lstrip (String.rev (lstrip s))).

(** The line feed of ["\n"] *)
Definition newline : string := String (Ascii.ascii_of_nat 10) EmptyString.

(** [Path(a) / b] *)
Definition path_join (a b : string) : string := a +:+ "/" +:+ b.

Fixpoint zeros (n : nat) : string :=
  match n with
  | O => EmptyString
  | S n' => "0" +:+ zeros n'
  end.

(** [f"{n:04d}"] *)
Definition fmt_04d (n : Z) : string :=
  if n <? 0
  then let d := pretty (- n) in "-" +:+ zeros (3 - String.length d) +:+ d
  else let d := pretty n in zeros (4 - String.length d) +:+ d.

(** [outdir / f"composed_{idx:04d}_{short}.png"], with [short = commit[:8]] *)
Definition out_png (outdir : string) (idx : Z) (commit : string) : string :=
  path_join outdir
    ("composed_" +:+ fmt_04d idx +:+ "_" +:+ String.substring 0 8 commit +:+ ".png").

(** [enumerate(l, start=1)] *)
Definition enumerate1 {A} (l : list A) : list (Z * A) :=
  zip (seqZ 1 (Z.of_nat (length l))) l.

(** ** The environment of a run *)

(** What the external tools do for one commit, once it is checked out. *)
Record CommitEnv := {
  (** [tempfile.TemporaryDirectory(prefix="latex_build_", dir=repo)] *)
  tempdir : result string;
  (** the latexmk command: the files of the work tree afterwards *)
  latexmk_run : result (gset string);
  (** pass [i] of pdflatex: the files afterwards *)
  pdflatex_run : nat -> result (gset string);
  (** the pdftoppm command: the files afterwards *)
  pdftoppm_run : result (gset string);
  (** [Image.open] on a rendered page *)
  image_open : string -> result Image;
  (** [composed_img.save(out_png, format="PNG")] *)
  image_save : string -> result unit
}.

Record World := {
  (** [Path.resolve] and [Path.exists] when the script starts *)
  resolve : string -> string;
  path_exists : string -> bool;
  (** [shutil.which] *)
  which : string -> option string;
  (** [os.mkdir] through [Path.mkdir(parents=True, exist_ok=True)] *)
  mkdir : string -> result unit;
  (** stdout of [git rev-parse --abbrev-ref HEAD] and [git rev-parse HEAD] *)
  git_rev_parse_abbrev_ref : result string;
  git_rev_parse : result string;
  (** the stdout lines of [git log --pretty=format:%H --reverse -- tex] *)
  git_log : result (list string);
  (** [git checkout --quiet commit] inside the loop *)
  git_checkout : string -> result unit;
  (** the [git checkout --quiet original_branch] after the loop *)
  git_checkout_back : string -> result unit;
  commit_env : string -> CommitEnv;
  (** [imageio.imread] and [imageio.mimsave] *)
  imread : string -> result unit;
  mimsave : string -> list string -> result unit
}.

(** The command-line arguments the pipeline reads. *)
Record Args := {
  arg_repo : string;
  arg_tex : string;
  arg_out : string;
  arg_out_dir : string;
  arg_max_pages : Z;
  arg_dpi : Z
}.

(** [parser.parse_args()], lines 179-189, on the command line of the run:
    argparse gives the namespace of a command line it accepts; it prints
    the usage and ends the process with [sys.exit(2)] when it rejects the
    command line, and prints the help and ends it with [sys.exit(0)] for
    [-h] and [--help]. *)
Inductive parse_args :=
| Parsed (args : Args)
| UsageError
| Help.

(** ** ensure_tools_exist, get_commits_touching_file, build_latex *)

Definition ensure_tools_exist (which : string -> option string) : result unit :=
  let missing := filter (fun tool => which tool = None) ["git"; "pdftoppm"] in
  match missing with
  | [] => Ok ()
  | _ =>
      Raise (RuntimeError ("Missing required tools in PATH: "
                           +:+ String.concat ", " missing
                           +:+ ". Install them and retry."))
  end.

Definition get_commits_touching_file (log : result (list string))
    : result (list string) :=
  match log with
  | Ok lines => Ok (filter (fun h => h <> EmptyString) (strip <$> lines))
  | Raise e => Raise e
  end.

(** [pdf_name] is [tex_path.with_suffix(".pdf").name].  The commands run
    without captured output, so [e.stderr] is [None] and the message of a
    failing pdflatex pass ends with [str(e)]. *)
Definition build_latex (which : string -> option string) (mkdir : string -> result unit)
    (e : CommitEnv) (pdf_name workdir build_outdir : string) : result string :=
  let fallback :=
    match which "pdflatex" with
    | None =>
        Raise (RuntimeError "Neither latexmk nor pdflatex is available to build the document.")
    | Some _ =>
        _ ← mkdir build_outdir;
        let pass i :=
          match pdflatex_run e i with
          | Raise (CalledProcessError text) =>
              Raise (RuntimeError ("pdflatex failed on pass " +:+ pretty (S i)
                                   +:+ ":" +:+ newline +:+ text))
          | r => r
          end in
        _ ← pass 0%nat;
        files ← pass 1%nat;
        let produced_pdf := path_join build_outdir pdf_name in
        if bool_decide (produced_pdf ∈ files) then Ok produced_pdf
        else Raise (RuntimeError ("Build succeeded but PDF not found at " +:+ produced_pdf))
    end in
  match which "latexmk" with
  | Some _ =>
      match latexmk_run e with
      | Ok files =>
          let produced_pdf := path_join workdir pdf_name in
          if bool_decide (produced_pdf ∈ files) then Ok produced_pdf else fallback
      | Raise (CalledProcessError _) => fallback
      | Raise exc => Raise exc
      end
  | None => fallback
  end.

(** ** main *)

(** The repository as the driver changes it: the reference checked out
    (the branch when the repository is on one, else the commit hash) and
    the references git was asked to check out, oldest first. *)
Record Repo := { head : string; checkouts : list string }.

(** Where a successful [git checkout ref] leaves the repository: on [ref],
    except that [HEAD] names the place the repository is at already.
    [HEAD] is what [git rev-parse --abbrev-ref HEAD] prints when no branch
    is checked out. *)
Definition checked_out (ref : string) (r : Repo) : string :=
  if String.eqb ref "HEAD" then head r else ref.

(** [run(["git", "-C", repo, "checkout", "--quiet", ref])] *)
Definition checkout (git : string -> result unit) (ref : string) (r : Repo)
    : Repo * result unit :=
  match git ref with
  | Ok _ => ({| head := checked_out ref r; checkouts := checkouts r ++ [ref] |}, Ok ())
  | Raise e => ({| head := head r; checkouts := checkouts r ++ [ref] |}, Raise e)
  end.

Inductive stage := Build | Rasterize | Compose.

(** How the loop body leaves a commit: a frame was written, or one of the
    [continue] statements was reached. *)
Inductive commit_status :=
| SAVED (png : string)
| SKIPPED (s : stage).

(** The [with tempfile.TemporaryDirectory ...] block, lines 237-271.
    [Raise] is an exception that no [except] of the block catches. *)
Definition process_checked_out (w : World) (a : Args) (repo_path outdir pdf_name : string)
    (idx : Z) (commit : string) : result commit_status :=
  let e := commit_env w commit in
  workdir ← tempdir e;
  let build_outdir := path_join workdir "out" in
  _ ← mkdir w build_outdir;
  match build_latex (which w) (mkdir w) e pdf_name repo_path build_outdir with
  | Raise _ => Ok (SKIPPED Build)
  | Ok pdf_path =>
      let png_prefix := path_join workdir "page" in
      match pdf_to_png_pages (which w) (fun _ => pdftoppm_run e)
              pdf_path png_prefix (arg_dpi a) (arg_max_pages a) with
      | Raise _ => Ok (SKIPPED Rasterize)
      | Ok [] => Ok (SKIPPED Rasterize)
      | Ok pages =>
          match compose_side_by_side (image_open e) (ArgPath <$> pages)
                  (arg_max_pages a) 1200 8 with
          | Raise _ => Ok (SKIPPED Compose)
          | Ok composed_img =>
              let png := out_png outdir idx commit in
              _ ← image_save e png;
              Ok (SAVED png)
          end
      end
  end.

(** The state of the [for idx, commit in enumerate(commits, start=1)] loop. *)
Record Loop := {
  repo : Repo;
  composed_pngs : list string;
  statuses : list (string * commit_status)
}.

(** One iteration, lines 230-277: the [try ... finally: pass] has no
    [except], so an exception of the checkout or of the block goes on. *)
Definition process_commit (w : World) (a : Args) (repo_path outdir pdf_name : string)
    (idx : Z) (commit : string) (s : Loop) : Loop * option exn :=
  let '(r, co) := checkout (git_checkout w) commit (repo s) in
  let s' := {| repo := r; composed_pngs := composed_pngs s; statuses := statuses s |} in
  match co with
  | Raise e => (s', Some e)
  | Ok _ =>
      match process_checked_out w a repo_path outdir pdf_name idx commit with
      | Raise e => (s', Some e)
      | Ok (SAVED png) =>
          ({| repo := r; composed_pngs := composed_pngs s ++ [png];
              statuses := statuses s ++ [(commit, SAVED png)] |}, None)
      | Ok (SKIPPED st) =>
          ({| repo := r; composed_pngs := composed_pngs s;
              statuses := statuses s ++ [(commit, SKIPPED st)] |}, None)
      end
  end.

Fixpoint commits_loop (w : World) (a : Args) (repo_path outdir pdf_name : string)
    (cs : list (Z * string)) (s : Loop) : Loop * option exn :=
  match cs with
  | [] => (s, None)
  | (idx, commit) :: cs' =>
      match process_commit w a repo_path outdir pdf_name idx commit s with
      | (s', Some e) => (s', Some e)
      | (s', None) => commits_loop w a repo_path outdir pdf_name cs' s'
      end
  end.

(** How the process ends: [sys.exit(code)], an exception nobody caught, or
    [main] returning. *)
Inductive outcome :=
| Exit (code : Z)
| Uncaught (e : exn)
| Returned.

(** The exit status the shell sees. *)
Definition exit_status (o : outcome) : Z :=
  match o with
  | Exit code => code
  | Uncaught _ => 1
  | Returned => 0
  end.

Record Run := {
  run_outcome : outcome;
  run_repo : Repo;
  (** [original_branch], once recorded *)
  run_recorded : option string;
  (** [commits], once listed *)
  run_commits : list string;
  run_loop_done : bool;
  run_statuses : list (string * commit_status);
  run_pngs : list string;
  (** the frames given to a successful [mimsave], in order *)
  run_animation : option (list string)
}.

Definition early (o : outcome) (r : Repo) (rec : option string) (cs : list string) : Run :=
  {| run_outcome := o; run_repo := r; run_recorded := rec; run_commits := cs;
     run_loop_done := false; run_statuses := []; run_pngs := [];
     run_animation := None |}.

(** Lines 210-216: the reference to go back to is the output of
    [git rev-parse --abbrev-ref HEAD] or, when that command fails, of
    [git rev-parse HEAD]. *)
Definition record_head (w : World) : result string :=
  match git_rev_parse_abbrev_ref w with
  | Ok out => Ok (strip out)
  | Raise _ =>
      match git_rev_parse w with
      | Ok out => Ok (strip out)
      | Raise e => Raise e
      end
  end.

(** Lines 286-304: the end of [main], from the test of [composed_pngs] on.
    The second component is the list of frames given to a successful
    [mimsave]. *)
Definition assemble (w : World) (out : string) (pngs : list string)
    : outcome * option (list string) :=
  match pngs with
  | [] => (Exit 2, None)
  | _ =>
      match for_each (fun p => _ ← imread w p; Ok p) pngs with
      | Raise e => (Uncaught e, None)
      | Ok frames =>
          match mimsave w out frames with
          | Raise _ => (Exit 1, None)
          | Ok _ => (Returned, Some frames)
          end
      end
  end.

(** [cl] is what [parser.parse_args()] does with the command line;
    [pdf_name] stands for [Path(args.tex).with_suffix(".pdf").name];
    [r0] is the repository when the script starts. *)
Definition main (w : World) (cl : parse_args) (pdf_name : string) (r0 : Repo) : Run :=
  match cl with
  | UsageError => early (Exit 2) r0 None []
  | Help => early (Exit 0) r0 None []
  | Parsed a =>
  let repo_path := resolve w (arg_repo a) in
  if negb (path_exists w repo_path) then early (Exit 2) r0 None [] else
  match ensure_tools_exist (which w) with
  | Raise e => early (Uncaught e) r0 None []
  | Ok _ =>
  let tex_abs := path_join repo_path (arg_tex a) in
  if negb (path_exists w tex_abs) then early (Exit 2) r0 None [] else
  match record_head w with
  | Raise e => early (Uncaught e) r0 None []
  | Ok original_branch =>
  match get_commits_touching_file (git_log w) with
  | Raise e => early (Uncaught e) r0 (Some original_branch) []
  | Ok [] => early (Exit 2) r0 (Some original_branch) []
  | Ok commits =>
  let outdir := resolve w (arg_out_dir a) in
  match mkdir w outdir with
  | Raise e => early (Uncaught e) r0 (Some original_branch) commits
  | Ok _ =>
  let start := {| repo := r0; composed_pngs := []; statuses := [] |} in
  match commits_loop w a repo_path outdir pdf_name (enumerate1 commits) start with
  | (s, Some e) =>
      {| run_outcome := Uncaught e; run_repo := repo s;
         run_recorded := Some original_branch; run_commits := commits;
         run_loop_done := false; run_statuses := statuses s;
         run_pngs := composed_pngs s; run_animation := None |}
  | (s, None) =>
      let '(r, _) := checkout (git_checkout_back w) original_branch (repo s) in
      let '(o, anim) := assemble w (arg_out a) (composed_pngs s) in
      {| run_outcome := o; run_repo := r;
         run_recorded := Some original_branch; run_commits := commits;
         run_loop_done := true; run_statuses := statuses s;
         run_pngs := composed_pngs s; run_animation := anim |}
  end end end end end end.

(** The frame written for entry [(idx, commit)] of the enumerated commits. *)
Definition png_of (outdir : string) (ic : Z * string) : string :=
  out_png outdir ic.1 ic.2.


(** ** Auxiliary notions for the properties *)

(** The frame of a status, if the commit was saved. *)
Definition saved_png (st : string * commit_status) : option string :=
  match st.2 with
  | SAVED png => Some png
  | SKIPPED _ => None
  end.

(** [shutil.which] on a machine without latexmk *)
Definition without_latexmk (wh : string -> option string) (tool : string)
    : option string :=
  if String.eqb tool "latexmk" then None else wh tool.

(** A string that does not start with white space. *)
Definition no_lead (s : string) : Prop :=
  match s with
  | String c _ => is_space c = false
  | EmptyString => True
  end.

Definition is_digit (c : Ascii.ascii) : bool :=
  let n := Ascii.nat_of_ascii c in ((48 <=? n) && (n <=? 57))%nat.

Fixpoint all_digits (s : string) : Prop :=
  match s with
  | EmptyString => True
  | String c s' => is_digit c = true /\ all_digits s'
  end.

(** A decimal numeral without leading zero. *)
Definition numeral (s : string) : Prop :=
  match s with
  | EmptyString => False
  | String c _ => c <> Ascii.ascii_of_nat 48 /\ all_digits s
  end.

(** ** Concrete runs

    Small environments on which the definitions above are evaluated. *)

Definition rgb (w h : Z) : Image := {| mode := "RGB"; width := w; height := h |}.

Definition no_open (p : string) : result Image := Raise (OSError p).

Definition demo_which (tool : string) : option string := Some ("/usr/bin/" +:+ tool).

(** pdftoppm is not installed *)
Definition which_no_pdftoppm (tool : string) : option string :=
  if String.eqb tool "pdftoppm" then None else demo_which tool.

(** pages 1, 2 and 4 were rendered, page 3 is missing *)
Definition demo_pages : gset string :=
  {[ "/repo/latex_build_0/page-1.png";
     "/repo/latex_build_0/page-2.png";
     "/repo/latex_build_0/page-4.png" ]}.

(** A commit that builds with latexmk when [builds] holds, renders
    [demo_pages] of US-letter size at 150 dpi and writes its strip when
    [saves] holds. *)
Definition demo_env (builds saves : bool) : CommitEnv :=
  {| tempdir := Ok "/repo/latex_build_0";
     latexmk_run :=
       if builds then Ok {[ "/repo/main.pdf" ]}
       else Raise (CalledProcessError "latexmk");
     pdflatex_run := fun _ => Raise (CalledProcessError "pdflatex");
     pdftoppm_run := Ok demo_pages;
     image_open := fun _ => Ok (rgb 1275 1650);
     image_save := fun p => if saves then Ok () else Raise (OSError p) |}.

(** A repository on branch master with three commits touching main.tex.
    [tools] is [shutil.which]; [checks_out c] and [goes_back] say whether
    git can check out commit [c] and the recorded reference; [builds c]
    and [saves c] are passed to [demo_env]. *)
Definition demo_world (tools : string -> option string)
    (checks_out : string -> bool) (goes_back : bool)
    (builds saves : string -> bool) : World :=
  {| resolve := fun p => p;
     path_exists := fun p => bool_decide (p ∈ ({[ "/repo"; "/repo/main.tex" ]} : gset string));
     which := tools;
     mkdir := fun _ => Ok ();
     git_rev_parse_abbrev_ref := Ok ("master" +:+ newline);
     git_rev_parse := Ok ("3c3c3c3c3c3c3c3c" +:+ newline);
     git_log := Ok ["1a1a1a1a1a1a1a1a"; "2b2b2b2b2b2b2b2b"; "3c3c3c3c3c3c3c3c"];
     git_checkout := fun c =>
       if checks_out c then Ok () else Raise (CalledProcessError "git checkout");
     git_checkout_back := fun c =>
       if goes_back then Ok () else Raise (CalledProcessError "git checkout");
     commit_env := fun c => demo_env (builds c) (saves c);
     imread := fun _ => Ok ();
     mimsave := fun _ _ => Ok () |}.

Definition demo_args : Args :=
  {| arg_repo := "/repo"; arg_tex := "main.tex"; arg_out := "history_anim.gif";
     arg_out_dir := "/out"; arg_max_pages := 10; arg_dpi := 150 |}.

Definition demo_repo : Repo := {| head := "master"; checkouts := [] |}.

Definition always (_ : string) : bool := true.

Definition all_but (c : string) (c' : string) : bool := negb (String.eqb c c').

(** two pages taller than the 1200 pixels of the strip *)
Definition two_pages : list image_arg :=
  [ArgImage (rgb 1275 1650); ArgImage (rgb 1700 2200)].

(** an A4 page rendered at 203 dpi, opened and converted *)
Definition a4_at_203dpi : Image :=
  {| mode := "RGBA"; width := 1679; height := 2374 |}.


Definition missing_repo_args : Args :=
  {| arg_repo := "/nowhere"; arg_tex := "main.tex"; arg_out := "history_anim.gif";
     arg_out_dir := "/out"; arg_max_pages := 10; arg_dpi := 150 |}.

Definition zero_cap_args : Args :=
  {| arg_repo := "/repo"; arg_tex := "main.tex"; arg_out := "history_anim.gif";
     arg_out_dir := "/out"; arg_max_pages := 0; arg_dpi := 150 |}.


(** git and pdftoppm are installed, LaTeX is not *)
Definition which_no_latex (tool : string) : option string :=
  if String.eqb tool "git" then Some "/usr/bin/git"
  else if String.eqb tool "pdftoppm" then Some "/usr/bin/pdftoppm"
  else None.

(** Lines of a [git log] output with white space beyond ASCII: a unit
    separator (U+001F) before [abc] and alone on a line, and a no-break
    space (U+00A0) after a hash. *)
Definition odd_log_lines : list string :=
  let us := String (Ascii.ascii_of_nat 31) EmptyString in
  let nbsp := String (Ascii.ascii_of_nat 160) EmptyString in
  [us +:+ "abc"; us; "  1a1a1a1a" +:+ nbsp; "   "; "2b2b2b2b"].

(** two images that fit into 1200 pixels *)
Definition fitting_pages : list Image := [rgb 800 600; rgb 640 480].

(** [w] for a run that starts on a detached HEAD, at commit [hash] *)
Definition detached_at (hash : string) (w : World) : World :=
  {| resolve := resolve w;
     path_exists := path_exists w;
     which := which w;
     mkdir := mkdir w;
     git_rev_parse_abbrev_ref := Ok ("HEAD" +:+ newline);
     git_rev_parse := Ok (hash +:+ newline);
     git_log := git_log w;
     git_checkout := git_checkout w;
     git_checkout_back := git_checkout_back w;
     commit_env := commit_env w;
     imread := imread w;
     mimsave := mimsave w |}.

Definition detached_repo (hash : string) : Repo := {| head := hash; checkouts := [] |}.

(** [w] with [git log] failing *)
Definition without_git_log (w : World) : World :=
  {| resolve := resolve w;
     path_exists := path_exists w;
     which := which w;
     mkdir := mkdir w;
     git_rev_parse_abbrev_ref := git_rev_parse_abbrev_ref w;
     git_rev_parse := git_rev_parse w;
     git_log := Raise (CalledProcessError "git log");
     git_checkout := git_checkout w;
     git_checkout_back := git_checkout_back w;
     commit_env := commit_env w;
     imread := imread w;
     mimsave := mimsave w |}.

(** [w] with the two [git rev-parse] commands failing *)
Definition without_rev_parse (w : World) : World :=
  {| resolve := resolve w;
     path_exists := path_exists w;
     which := which w;
     mkdir := mkdir w;
     git_rev_parse_abbrev_ref := Raise (CalledProcessError "git rev-parse --abbrev-ref HEAD");
     git_rev_parse := Raise (CalledProcessError "git rev-parse HEAD");
     git_log := git_log w;
     git_checkout := git_checkout w;
     git_checkout_back := git_checkout_back w;
     commit_env := commit_env w;
     imread := imread w;
     mimsave := mimsave w |}.

(** * Properties *)

(** ** The error monad and the Python helpers *)

Lemma bind_ok {A B} (m : result A) (k : A -> result B) (b : B) :
  m ≫= k = Ok b <-> exists a, m = Ok a /\ k a = Ok b.
Proof.
  destruct m as [a|e]; cbn; split.
  - intros H. by exists a.
  - by intros (a' & [= <-] & H).
  - discriminate.
  - by intros (a' & H & _).
Qed.

Ltac inv_bind H :=
  let x := fresh "x" in
  let Hx := fresh "Hx" in
  apply bind_ok in H; destruct H as (x & Hx & H).

Lemma for_each_ok_length {A B} (f : A -> result B) l bs :
  for_each f l = Ok bs -> length bs = length l.
Proof.
  revert bs. induction l as [|a l IH]; intros bs H; cbn in H.
  - by injection H as <-.
  - inv_bind H. inv_bind H. injection H as <-. cbn. f_equal. by apply IH.
Qed.

Lemma for_each_ok_Forall2 {A B} (f : A -> result B) l bs :
  for_each f l = Ok bs <-> Forall2 (fun a b => f a = Ok b) l bs.
Proof.
  revert bs. induction l as [|a l IH]; intros bs; cbn.
  - split.
    + intros [= <-]. constructor.
    + by intros ->%Forall2_nil_inv_l.
  - split.
    + intros H. inv_bind H. inv_bind H. injection H as <-.
      constructor; [done|by apply IH].
    + intros (b & bs' & Hb & Hbs & ->)%Forall2_cons_inv_l.
      rewrite Hb. cbn. apply IH in Hbs. rewrite Hbs. done.
Qed.

Lemma for_each_compose {A B C} (f : A -> result B) (g : B -> result C) l cs :
  for_each (fun a => b ← f a; g b) l = Ok cs <->
  exists bs, for_each f l = Ok bs /\ for_each g bs = Ok cs.
Proof.
  revert cs. induction l as [|a l IH]; intros cs; cbn.
  - split.
    + intros [= <-]. by exists [].
    + by intros (bs & [= <-] & H).
  - split.
    + intros H. inv_bind H. inv_bind Hx. inv_bind H. injection H as <-.
      apply IH in Hx1 as (bs & Hbs & Hcs).
      exists (x0 :: bs). rewrite Hx0. cbn. rewrite Hbs. cbn.
      split; [done|]. rewrite Hx. cbn. by rewrite Hcs.
    + intros (bs & H & Hcs). inv_bind H. inv_bind H. injection H as <-.
      cbn in Hcs. inv_bind Hcs. inv_bind Hcs. injection Hcs as <-.
      rewrite Hx. cbn. rewrite Hx1. cbn.
      assert (for_each (fun a => b ← f a; g b) l = Ok x2) as ->; [|done].
      apply IH. by exists x0.
Qed.

Lemma slice_to_all {A} (l : list A) (stop : Z) :
  Z.of_nat (length l) <= stop -> slice_to l stop = l.
Proof.
  intros H. unfold slice_to.
  destruct (Z.ltb_spec stop 0); [lia|].
  apply take_ge. lia.
Qed.

Lemma slice_to_nil_iff {A} (l : list A) (stop : Z) :
  slice_to l stop = [] <->
  l = [] \/ stop = 0 \/ (stop < 0 /\ Z.of_nat (length l) <= - stop).
Proof.
  unfold slice_to. destruct l as [|a l]; [rewrite take_nil; naive_solver|].
  cbn [length]. destruct (Z.ltb_spec stop 0) as [Hneg|Hpos].
  - destruct (Z.to_nat (Z.max (stop + Z.of_nat (S (length l))) 0)) as [|n] eqn:E; cbn.
    + split; [intros _|done]. right. right. lia.
    + split; [done|]. intros [?|[?|[_ ?]]]; [done|lia|lia].
  - destruct (Z.to_nat (Z.min stop (Z.of_nat (S (length l))))) as [|n] eqn:E; cbn.
    + split; [intros _|done]. right. left. lia.
    + split; [done|]. intros [?|[?|[? _]]]; [done|lia|lia].
Qed.

Lemma foldl_add_acc (l : list Z) (acc : Z) :
  foldl Z.add acc l = acc + foldr Z.add 0 l.
Proof.
  revert acc. induction l as [|x l IH]; intros acc; cbn; [lia|].
  rewrite IH. lia.
Qed.

Lemma py_sum_foldr (l : list Z) : py_sum l = foldr Z.add 0 l.
Proof. unfold py_sum. rewrite foldl_add_acc. lia. Qed.

Lemma foldl_max_spec (l : list Z) (x : Z) :
  foldl Z.max x l ∈ x :: l /\ Forall (fun y => y <= foldl Z.max x l) (x :: l).
Proof.
  revert x. induction l as [|y l IH]; intros x; cbn.
  - split; [set_solver|]. repeat constructor. lia.
  - destruct (IH (Z.max x y)) as [Hin Hall]. clear IH. split.
    + apply elem_of_cons in Hin as [Hin|Hin].
      * rewrite Hin. destruct (Z.max_spec x y) as [[_ ->]|[_ ->]].
        -- apply list_elem_of_further, list_elem_of_here.
        -- apply list_elem_of_here.
      * by do 2 apply list_elem_of_further.
    + apply Forall_cons in Hall as [Hm Hall].
      repeat constructor; [lia|lia|done].
Qed.

Lemma py_max_spec (l : list Z) (m : Z) :
  py_max l = Ok m -> m ∈ l /\ Forall (fun y => y <= m) l.
Proof.
  destruct l as [|x l]; cbn; [done|]. intros [= <-]. apply foldl_max_spec.
Qed.

(** ** pdf_to_png_pages *)

Lemma collect_pages_seqZ files out_prefix (start : Z) (n : nat) :
  exists k : Z,
    0 <= k <= Z.of_nat n /\
    collect_pages files out_prefix (seqZ start (Z.of_nat n))
      = page_path out_prefix <$> seqZ start k /\
    (forall i, start <= i < start + k -> page_path out_prefix i ∈ files) /\
    (k < Z.of_nat n -> page_path out_prefix (start + k) ∉ files).
Proof.
  revert start. induction n as [|n IH]; intros start.
  - exists 0. cbn. repeat split; intros; lia.
  - rewrite seqZ_cons by lia. cbn [collect_pages].
    replace (Z.pred (Z.of_nat (S n))) with (Z.of_nat n) by lia.
    destruct (bool_decide_reflect (page_path out_prefix start ∈ files)) as [Hin|Hout].
    + destruct (IH (Z.succ start)) as (k & Hk & Heq & Hall & Hstop).
      exists (Z.succ k). split; [lia|]. split; [|split].
      * rewrite (seqZ_cons start (Z.succ k)) by lia. cbn.
        rewrite Heq. do 3 f_equal. lia.
      * intros i Hi. destruct (decide (i = start)) as [->|Hne]; [done|].
        apply Hall. lia.
      * intros Hlt. replace (start + Z.succ k) with (Z.succ start + k) by lia.
        apply Hstop. lia.
    + exists 0. split; [lia|]. split; [done|]. split; [intros i Hi; lia|].
      intros _. by replace (start + 0) with start by lia.
Qed.

(** C4: once pdftoppm has run, the pages collected are the files of pages
    1, 2, ..., k in this order, for the k at which the cap or the first
    missing page file stops the loop; later page files play no part. *)
Theorem pdf_to_png_pages_contiguous
    (which : string -> option string) (run : list string -> result (gset string))
    (pdf_path out_prefix : string) (dpi max_pages : Z)
    (exe : string) (files : gset string) :
  which "pdftoppm" = Some exe ->
  run [exe; "-png"; "-r"; pretty dpi; pdf_path; out_prefix] = Ok files ->
  exists k : Z,
    0 <= k <= Z.max 0 max_pages /\
    pdf_to_png_pages which run pdf_path out_prefix dpi max_pages
      = Ok (page_path out_prefix <$> seqZ 1 k) /\
    (forall i, 1 <= i <= k -> page_path out_prefix i ∈ files) /\
    (k < max_pages -> page_path out_prefix (k + 1) ∉ files).
Proof.
  intros Hwhich Hrun. unfold pdf_to_png_pages. rewrite Hwhich, Hrun. cbn.
  destruct (Z.le_gt_cases max_pages 0) as [Hle|Hgt].
  - exists 0. rewrite seqZ_nil by done. cbn. repeat split; intros; lia.
  - destruct (collect_pages_seqZ files out_prefix 1 (Z.to_nat max_pages))
      as (k & Hk & Heq & Hall & Hstop).
    rewrite Z2Nat.id in * by lia.
    exists k. split; [lia|]. split; [by rewrite Heq|]. split.
    + intros i Hi. apply Hall. lia.
    + intros Hlt. rewrite Z.add_comm. by apply Hstop.
Qed.

(** ** compose_side_by_side *)

(** C8: composing zero images raises [ValueError("No images to compose.")],
    whatever the other arguments are. *)
Theorem compose_no_images open max_pages max_height gap :
  compose_side_by_side open [] max_pages max_height gap
    = Raise (ValueError "No images to compose.").
Proof.
  unfold compose_side_by_side, slice_to. by rewrite take_nil.
Qed.

Lemma compose_empty_slice open images max_pages max_height gap :
  slice_to images max_pages = [] ->
  compose_side_by_side open images max_pages max_height gap
    = Raise (ValueError "No images to compose.").
Proof. intros H. unfold compose_side_by_side. by rewrite H. Qed.

(** What a successful composition went through. *)
Lemma compose_ok_inv open images max_pages max_height gap strip :
  compose_side_by_side open images max_pages max_height gap = Ok strip ->
  exists imgs scaled max_h,
    imgs <> [] /\
    for_each (load_image open) (slice_to images max_pages) = Ok imgs /\
    for_each (scale_image max_height) imgs = Ok scaled /\
    py_max (height <$> scaled) = Ok max_h /\
    strip = {| mode := "RGB";
               width := py_sum (width <$> scaled)
                        + gap * (Z.of_nat (length scaled) - 1);
               height := max_h |}.
Proof.
  unfold compose_side_by_side. intros H. inv_bind H.
  destruct x as [|im imgs]; [done|].
  inv_bind H. inv_bind H. inv_bind H. injection H as <-.
  exists (im :: imgs), x, x0. repeat split; try done.
  unfold Image_new in Hx2. destruct (_ || _); [done|]. by injection Hx2 as <-.
Qed.

(** C5: a strip composed from 1 to [max_pages] images is as wide as the
    sum of the widths of the individually scaled images plus [gap] between
    neighbours, and as high as the highest scaled image. *)
Theorem compose_strip_size open images max_pages max_height gap strip :
  1 <= Z.of_nat (length images) <= max_pages ->
  compose_side_by_side open images max_pages max_height gap = Ok strip ->
  exists scaled,
    for_each (fun a => im ← load_image open a; scale_image max_height im) images
      = Ok scaled /\
    width strip
      = foldr Z.add 0 (width <$> scaled) + gap * (Z.of_nat (length images) - 1) /\
    height strip ∈ height <$> scaled /\
    Forall (fun h => h <= height strip) (height <$> scaled).
Proof.
  intros Hlen H.
  apply compose_ok_inv in H as (imgs & scaled & max_h & _ & Hload & Hscale & Hmax & ->).
  rewrite slice_to_all in Hload by lia.
  exists scaled. split; [apply for_each_compose; by exists imgs|].
  apply for_each_ok_length in Hload as Hl1.
  apply for_each_ok_length in Hscale as Hl2.
  apply py_max_spec in Hmax as [Hin Hall]. cbn.
  rewrite py_sum_foldr, Hl2, Hl1. done.
Qed.

(** ** Floats: rounding of the scale factor *)

Module PyFloatFacts.
Import PyFloat.

Lemma digits_log2 (p : positive) : Z.pos (digits2_pos p) = Z.log2 (Z.pos p) + 1.
Proof.
  assert (Hs : forall q, digits2_pos q = Pos.size q).
  { induction q as [q IH|q IH|]; cbn; by rewrite ?IH. }
  destruct p as [p|p|]; cbn; rewrite ?Hs; lia.
Qed.

Lemma digits_bounds (p : positive) :
  2 ^ (Z.pos (digits2_pos p) - 1) <= Z.pos p < 2 ^ Z.pos (digits2_pos p).
Proof.
  rewrite digits_log2.
  replace (Z.log2 (Z.pos p) + 1 - 1) with (Z.log2 (Z.pos p)) by lia.
  replace (Z.log2 (Z.pos p) + 1) with (Z.succ (Z.log2 (Z.pos p))) by lia.
  apply Z.log2_spec. lia.
Qed.

Lemma digits_unique (p : positive) (d : Z) :
  2 ^ (d - 1) <= Z.pos p < 2 ^ d -> Z.pos (digits2_pos p) = d.
Proof.
  intros H. rewrite digits_log2.
  assert (0 <= d - 1).
  { destruct (Z.le_gt_cases 0 (d - 1)); [done|].
    destruct (Z.le_gt_cases 0 d).
    - replace d with 0 in H by lia. cbn in H. lia.
    - rewrite (Z.pow_neg_r 2 d) in H by lia. lia. }
  rewrite (Z.log2_unique (Z.pos p) (d - 1)); [lia|lia|].
  by replace (Z.succ (d - 1)) with d by lia.
Qed.

Lemma shr_1_m (mrs : shr_record) :
  0 <= shr_m mrs -> shr_m (shr_1 mrs) = shr_m mrs / 2.
Proof.
  destruct mrs as [m r s]. cbn [shr_m]. intros Hm.
  rewrite <- Z.div2_div.
  destruct m as [|[p|p|]|p]; cbn; (done || lia).
Qed.

Lemma shr_iter_m (p : positive) (mrs : shr_record) :
  0 <= shr_m mrs ->
  shr_m (SpecFloat.iter_pos shr_1 p mrs) = shr_m mrs / 2 ^ Z.pos p.
Proof.
  revert mrs. induction p as [p IH|p IH|]; intros mrs Hm; cbn [SpecFloat.iter_pos].
  - assert (0 <= shr_m (shr_1 mrs)) by (rewrite shr_1_m by done; apply Z.div_pos; lia).
    assert (0 <= shr_m (SpecFloat.iter_pos shr_1 p (shr_1 mrs))).
    { rewrite IH by done. apply Z.div_pos; lia. }
    rewrite !IH, shr_1_m by done.
    rewrite !Z.div_div by lia. f_equal.
    replace (Z.pos p~1) with (Z.pos p + Z.pos p + 1) by lia.
    rewrite !Z.pow_add_r by lia. lia.
  - assert (0 <= shr_m (SpecFloat.iter_pos shr_1 p mrs)).
    { rewrite IH by done. apply Z.div_pos; lia. }
    rewrite !IH by done. rewrite Z.div_div by lia. f_equal.
    replace (Z.pos p~0) with (Z.pos p + Z.pos p) by lia.
    rewrite Z.pow_add_r by lia. lia.
  - rewrite shr_1_m by done. done.
Qed.

Lemma fexp_normal (d : Z) : -1021 <= d -> fexp prec emax d = d - 53.
Proof. intros H. unfold fexp, emin, prec, emax. lia. Qed.

Lemma shr_record_of_loc_m (m : Z) (l : location) : shr_m (shr_record_of_loc m l) = m.
Proof. by destruct l as [|[]]. Qed.

Lemma shr_fexp_m (m : positive) (e : Z) (l : location) :
  let n := Z.pos (digits2_pos m) - 53 in
  0 <= n -> -1074 <= e + n ->
  exists mrs e',
    shr_fexp prec emax (Z.pos m) e l = (mrs, e') /\
    e' = e + n /\ shr_m mrs = Z.pos m / 2 ^ n.
Proof.
  intros n Hn He. unfold shr_fexp. cbn [Zdigits2].
  rewrite fexp_normal by lia.
  replace (Z.pos (digits2_pos m) + e - 53 - e) with n by lia.
  unfold shr. destruct n as [|p|p] eqn:En; [| |lia].
  - eexists _, _. split; [done|]. split; [lia|].
    rewrite shr_record_of_loc_m. cbn. by rewrite Z.div_1_r.
  - eexists _, _. split; [done|]. split; [done|].
    rewrite shr_iter_m; rewrite shr_record_of_loc_m; [done|lia].
Qed.

Lemma round_nearest_even_cases (m : Z) (l : location) :
  round_nearest_even m l = m \/ round_nearest_even m l = m + 1.
Proof. destruct l as [|[]]; cbn; try destruct (Z.even m); auto. Qed.

Lemma round_aux_faithful (s : bool) (m : positive) (e : Z) (l : location) :
  let n := Z.pos (digits2_pos m) - 53 in
  0 <= n -> -1074 <= e + n -> e + n < 971 ->
  exists R eR,
    binary_round_aux prec emax s (Z.pos m) e l = S754_finite s R eR /\
    e + n <= eR <= e + n + 1 /\
    Z.pos (digits2_pos R) = 53 /\
    (Z.pos m / 2 ^ n) * 2 ^ n <= Z.pos R * 2 ^ (eR - e) <= (Z.pos m / 2 ^ n + 1) * 2 ^ n.
Proof.
  intros n Hn Hlo Hhi. unfold binary_round_aux.
  destruct (shr_fexp_m m e l) as (mrs & e' & -> & -> & Hq); [done..|].
  fold n in Hq |- *.
  pose proof (digits_bounds m) as Hd.
  replace (Z.pos (digits2_pos m) - 1) with (52 + n) in Hd by lia.
  replace (Z.pos (digits2_pos m)) with (53 + n) in Hd by lia.
  rewrite !Z.pow_add_r in Hd by lia.
  assert (0 < 2 ^ n) as Hpow by (apply Z.pow_pos_nonneg; lia).
  assert (2 ^ 52 <= Z.pos m / 2 ^ n < 2 ^ 53) as Hqb.
  { split.
    - apply Z.div_le_lower_bound; lia.
    - apply Z.div_lt_upper_bound; lia. }
  set (q := Z.pos m / 2 ^ n) in *.
  set (m1 := round_nearest_even (shr_m mrs) (loc_of_shr_record mrs)).
  assert (m1 = q \/ m1 = q + 1) as Hm1.
  { subst m1. rewrite Hq. apply round_nearest_even_cases. }
  destruct m1 as [|p1|p1] eqn:Ep1; [lia| |lia].
  destruct (Z.eq_dec (Z.pos p1) (2 ^ 53)) as [Hcarry|Hnocarry].
  - (* the rounded mantissa needs one more bit *)
    assert (Z.pos (digits2_pos p1) = 54) as Hd1.
    { apply digits_unique. rewrite Hcarry. cbn. lia. }
    destruct (shr_fexp_m p1 (e + n) loc_Exact) as (mrs2 & e2 & -> & -> & Hq2);
      [lia..|].
    rewrite Hq2, Hd1, Hcarry.
    change (2 ^ 53 / 2 ^ (54 - 53)) with (Z.pos (2 ^ 52)).
    destruct (Z.leb_spec (e + n + (54 - 53)) (emax - prec)) as [_|Hbad];
      [|unfold emax, prec in Hbad; lia].
    eexists _, _. split; [done|]. split; [lia|]. split; [done|].
    replace (e + n + (54 - 53) - e) with (n + 1) by lia.
    rewrite Z.pow_add_r by lia. change (Z.pos (2 ^ 52)) with (2 ^ 52).
    assert (q + 1 = 2 ^ 53) by lia. lia.
  - assert (Z.pos (digits2_pos p1) = 53) as Hd1.
    { apply digits_unique. change (53 - 1) with 52. lia. }
    destruct (shr_fexp_m p1 (e + n) loc_Exact) as (mrs2 & e2 & -> & -> & Hq2);
      [lia..|].
    rewrite Hq2, Hd1. change (2 ^ (53 - 53)) with 1. rewrite Z.div_1_r.
    destruct (Z.leb_spec (e + n + (53 - 53)) (emax - prec)) as [_|Hbad];
      [|unfold emax, prec in Hbad; lia].
    eexists _, _. split; [done|]. split; [lia|]. split; [done|].
    replace (e + n + (53 - 53) - e) with n by lia. nia.
Qed.
Lemma round_aux_exact (s : bool) (m : positive) (e : Z) :
  Z.pos (digits2_pos m) = 53 -> -1074 <= e <= 971 ->
  binary_round_aux prec emax s (Z.pos m) e loc_Exact = S754_finite s m e.
Proof.
  intros Hd He. unfold binary_round_aux, shr_fexp. cbn [Zdigits2].
  rewrite Hd, fexp_normal by lia.
  replace (53 + e - 53 - e) with 0 by lia. cbn.
  rewrite Hd, fexp_normal by lia.
  replace (53 + e - 53 - e) with 0 by lia. cbn.
  destruct (Z.leb_spec e (emax - prec)) as [_|Hbad]; [done|].
  unfold emax, prec in Hbad. lia.
Qed.

Lemma iter_xO (p k : positive) : Z.pos (Pos.iter xO p k) = Z.pos p * 2 ^ Z.pos k.
Proof.
  induction k as [|k IH] using Pos.peano_ind.
  - cbn. lia.
  - rewrite Pos.iter_succ, Pos2Z.inj_succ, Z.pow_succ_r by lia.
    rewrite Pos2Z.inj_xO, IH. lia.
Qed.

(** [float(z)] is exact for a positive int below 2^53. *)
Lemma of_int_exact (z : Z) :
  0 < z < 2 ^ 53 ->
  exists m e,
    of_int z = Ok (S754_finite false m e) /\
    Z.pos (digits2_pos m) = 53 /\ e = Z.log2 z - 52 /\ -52 <= e <= 0 /\
    Z.pos m = z * 2 ^ (- e).
Proof.
  intros Hz. destruct z as [|p|p]; [lia| |lia].
  unfold of_int, binary_normalize, binary_round.
  pose proof (digits_bounds p) as Hd.
  assert (1 <= Z.pos (digits2_pos p) <= 53) as Hdb.
  { split; [lia|]. destruct (Z.le_gt_cases (Z.pos (digits2_pos p)) 53); [done|].
    assert (2 ^ 53 <= 2 ^ (Z.pos (digits2_pos p) - 1)); [|lia].
    apply Z.pow_le_mono_r; lia. }
  rewrite fexp_normal by lia. unfold shl_align.
  destruct (Z.pos (digits2_pos p) + 0 - 53 - 0) as [|k|k] eqn:Ek; [|lia|].
  - rewrite round_aux_exact by lia.
    exists p, 0. split; [done|]. split; [lia|].
    split; [rewrite digits_log2 in Ek; lia|]. split; [lia|]. cbn. lia.
  - assert (Z.pos (digits2_pos (Pos.iter xO p k)) = 53) as Hd'.
    { apply digits_unique. rewrite iter_xO.
      assert (2 ^ (53 - 1) = 2 ^ (Z.pos (digits2_pos p) - 1) * 2 ^ Z.pos k) as ->.
      { rewrite <- Z.pow_add_r by lia. f_equal. lia. }
      assert (2 ^ 53 = 2 ^ Z.pos (digits2_pos p) * 2 ^ Z.pos k) as ->.
      { rewrite <- Z.pow_add_r by lia. f_equal. lia. }
      assert (0 < 2 ^ Z.pos k) by (apply Z.pow_pos_nonneg; lia). nia. }
    replace (Z.pos (digits2_pos p) + 0 - 53) with (Z.neg k) by lia.
    rewrite round_aux_exact by lia.
    eexists _, _. split; [done|]. split; [done|].
    split; [rewrite digits_log2 in Ek; lia|]. split; [lia|].
    rewrite iter_xO. done.
Qed.

Lemma div_finite (mm mx : positive) (em ex : Z) :
  Z.pos (digits2_pos mm) = 53 -> Z.pos (digits2_pos mx) = 53 ->
  -1021 <= em - ex ->
  exists (q : positive) (l : location),
    SFdiv prec emax (S754_finite false mm em) (S754_finite false mx ex)
      = binary_round_aux prec emax false (Z.pos q) (em - ex - 53) l /\
    Z.pos q = Z.pos mm * 2 ^ 53 / Z.pos mx.
Proof.
  intros Hdm Hdx He. unfold SFdiv, SFdiv_core_binary. cbn [Zdigits2 xorb].
  rewrite Hdm, Hdx, fexp_normal by lia.
  replace (Z.min (53 + em - (53 + ex) - 53) (em - ex)) with (em - ex - 53) by lia.
  replace (em - ex - (em - ex - 53)) with 53 by lia.
  rewrite Z.shiftl_mul_pow2 by lia.
  pose proof (digits_bounds mm) as Hbm. pose proof (digits_bounds mx) as Hbx.
  rewrite Hdm in Hbm. rewrite Hdx in Hbx. change (53 - 1) with 52 in *.
  assert (2 ^ 52 <= Z.pos mm * 2 ^ 53 / Z.pos mx) as Hq.
  { apply Z.div_le_lower_bound; lia. }
  unfold Z.div in Hq |- *.
  destruct (Z.div_eucl (Z.pos mm * 2 ^ 53) (Z.pos mx)) as [q r].
  destruct q as [|q|q]; [lia| |lia].
  by eexists _, _.
Qed.
Lemma digits_range (p : positive) (lo hi : Z) :
  0 <= lo -> 2 ^ lo <= Z.pos p < 2 ^ hi -> lo < Z.pos (digits2_pos p) <= hi.
Proof.
  intros Hlo [H1 H2]. pose proof (digits_bounds p) as [Hd1 Hd2]. split.
  - apply (Z.pow_lt_mono_r_iff 2); lia.
  - assert (Z.pos (digits2_pos p) - 1 < hi); [|lia].
    assert (0 <= hi).
    { destruct (Z.le_gt_cases 0 hi); [done|]. rewrite Z.pow_neg_r in H2; lia. }
    apply (Z.pow_lt_mono_r_iff 2); lia.
Qed.

Lemma round_up_le (m n : Z) : 0 < m -> 0 <= n -> (m / 2 ^ n + 1) * 2 ^ n <= m + 2 ^ n.
Proof.
  intros Hm Hn. assert (0 < 2 ^ n) by (apply Z.pow_pos_nonneg; lia).
  pose proof (Z.mul_div_le m (2 ^ n)). lia.
Qed.

Lemma scale_arith (M A mm mx q ms T Nq Nn R U : Z) :
  0 < M < 2 ^ 31 -> 0 < A -> 0 < T -> 0 < U -> 0 < mx -> 0 < ms -> 0 < R ->
  mm = M * A ->
  mx * q <= mm * 2 ^ 53 ->
  ms * T <= q + Nq -> 2 ^ 52 * Nq <= q ->
  R * U <= mx * ms + Nn -> 2 ^ 52 * Nn <= mx * ms ->
  R * U * T < A * 2 ^ 53 * (M + 1).
Proof.
  intros HM HA HT HU Hmx Hms HR -> Hq Hs HNq HRu HNn.
  assert (2 ^ 52 * (R * U) <= (2 ^ 52 + 1) * (mx * ms)) as S1.
  { set (P := mx * ms) in *. set (X := R * U) in *. lia. }
  assert (2 ^ 52 * (ms * T) <= (2 ^ 52 + 1) * q) as S2.
  { set (Y := ms * T) in *. lia. }
  assert (mx * (2 ^ 52 * (ms * T)) <= mx * ((2 ^ 52 + 1) * q)) as S3.
  { apply Z.mul_le_mono_nonneg_l; [lia|exact S2]. }
  assert (T * (2 ^ 52 * (2 ^ 52 * (R * U))) <= T * (2 ^ 52 * ((2 ^ 52 + 1) * (mx * ms)))) as S4.
  { apply Z.mul_le_mono_nonneg_l; [lia|].
    apply Z.mul_le_mono_nonneg_l; [lia|exact S1]. }
  assert ((2 ^ 52 + 1) * (mx * (2 ^ 52 * (ms * T)))
          <= (2 ^ 52 + 1) * (mx * ((2 ^ 52 + 1) * q))) as S5.
  { apply Z.mul_le_mono_nonneg_l; [lia|exact S3]. }
  assert ((2 ^ 52 + 1) * ((2 ^ 52 + 1) * (mx * q))
          <= (2 ^ 52 + 1) * ((2 ^ 52 + 1) * (M * A * 2 ^ 53))) as S6.
  { apply Z.mul_le_mono_nonneg_l; [lia|].
    apply Z.mul_le_mono_nonneg_l; [lia|exact Hq]. }
  assert (2 ^ 104 * (R * U * T) <= (2 ^ 52 + 1) * ((2 ^ 52 + 1) * (M * A * 2 ^ 53))) as S7.
  { eapply Z.le_trans; [|exact S6].
    eapply Z.le_trans; [|eapply Z.le_trans; [exact S5|]].
    - eapply Z.le_trans; [|eapply Z.le_trans; [exact S4|]].
      + apply Z.eq_le_incl. ring.
      + apply Z.eq_le_incl. ring.
    - apply Z.eq_le_incl. ring. }
  assert (0 < A * 2 ^ 53) as HK by lia.
  set (K := A * 2 ^ 53) in *.
  assert ((2 ^ 52 + 1) * ((2 ^ 52 + 1) * (M * A * 2 ^ 53))
          = K * ((2 ^ 52 + 1) * (2 ^ 52 + 1) * M)) as E1 by (subst K; ring).
  rewrite E1 in S7.
  assert ((2 ^ 52 + 1) * (2 ^ 52 + 1) * M < 2 ^ 104 * (M + 1)) as S8 by lia.
  assert (K * ((2 ^ 52 + 1) * (2 ^ 52 + 1) * M) < K * (2 ^ 104 * (M + 1))) as S9.
  { apply Z.mul_lt_mono_pos_l; [exact HK|exact S8]. }
  assert (2 ^ 104 * (R * U * T) < 2 ^ 104 * (K * (M + 1))) as S10.
  { eapply Z.le_lt_trans; [exact S7|].
    eapply Z.lt_le_trans; [exact S9|]. apply Z.eq_le_incl. ring. }
  apply Z.mul_lt_mono_pos_l in S10; [exact S10|lia].
Qed.

(** The scaled height never passes the target: [int(h * (M / float(h)))]
    is at most [M] for image heights. *)
Lemma scaled_height_le (M h : Z) (fh fm scale : float) (new_h : Z) :
  1 <= M -> M < h -> h < 2 ^ 31 ->
  of_int h = Ok fh -> of_int M = Ok fm -> div fm fh = Ok scale ->
  to_int (mul fh scale) = Ok new_h -> new_h <= M.
Proof.
  intros HM HMh Hh Hfh Hfm Hdiv Hint.
  destruct (of_int_exact h) as (mx & ex & Hfh' & Hdx & _ & Hex & Hmx); [lia|].
  destruct (of_int_exact M) as (mm & em & Hfm' & Hdm & Hlog & Hem & Hmm); [lia|].
  assert (Z.log2 M < 31) by (apply Z.log2_lt_pow2; lia).
  rewrite Hfh' in Hfh. injection Hfh as <-.
  rewrite Hfm' in Hfm. injection Hfm as <-.
  unfold div in Hdiv. cbn [is_zero] in Hdiv.
  assert (scale = SFdiv prec emax (S754_finite false mm em) (S754_finite false mx ex))
    as -> by congruence.
  clear Hdiv.
  destruct (div_finite mm mx em ex) as (q & l & Hq & Hqv); [done|done|lia|].
  rewrite Hq in Hint. clear Hq.
  pose proof (digits_bounds mm) as Hbm. pose proof (digits_bounds mx) as Hbx.
  rewrite Hdm in Hbm. rewrite Hdx in Hbx. change (53 - 1) with 52 in *.
  assert (2 ^ 52 <= Z.pos q < 2 ^ 54) as Hqb.
  { rewrite Hqv. split.
    - apply Z.div_le_lower_bound; lia.
    - apply Z.div_lt_upper_bound; lia. }
  pose proof (digits_range q 52 54 ltac:(lia) Hqb) as Hdq.
  destruct (round_aux_faithful false q (em - ex - 53) l)
    as (ms & es & Hs & Hes & Hds & _ & Hsu); [lia..|].
  rewrite Hs in Hint. clear Hs. cbn [mul SFmul xorb] in Hint.
  pose proof (digits_bounds ms) as Hbs. rewrite Hds in Hbs. change (53 - 1) with 52 in *.
  assert (2 ^ 104 <= Z.pos (mx * ms) < 2 ^ 106) as HPb.
  { rewrite Pos2Z.inj_mul. split; nia. }
  pose proof (digits_range (mx * ms) 104 106 ltac:(lia) HPb) as HdP.
  destruct (round_aux_faithful false (mx * ms) (ex + es) loc_Exact)
    as (R & eR & HR & HeR & HdR & _ & HRu); [lia..|].
  rewrite HR in Hint. clear HR. cbn [to_int cond_Zopp] in Hint. injection Hint as <-.
  assert (Z.shiftl (Z.pos R) eR = Z.pos R / 2 ^ (- eR)) as ->.
  { apply Z.shiftl_div_pow2. lia. }
  assert (Z.pos R / 2 ^ (- eR) < M + 1); [|lia].
  assert (0 < 2 ^ (- eR)) by (apply Z.pow_pos_nonneg; lia).
  apply Z.div_lt_upper_bound; [done|].
  (* the rounding steps, as integer inequalities *)
  set (nq := Z.pos (digits2_pos q) - 53) in *.
  set (n := Z.pos (digits2_pos (mx * ms)) - 53) in *.
  pose proof (round_up_le (Z.pos q) nq ltac:(lia) ltac:(lia)) as Hq1.
  pose proof (round_up_le (Z.pos (mx * ms)) n ltac:(lia) ltac:(lia)) as HP1.
  pose proof (digits_bounds q) as Hq2.
  pose proof (digits_bounds (mx * ms)) as HP2.
  replace (Z.pos (digits2_pos q) - 1) with (52 + nq) in Hq2 by lia.
  replace (Z.pos (digits2_pos (mx * ms)) - 1) with (52 + n) in HP2 by lia.
  rewrite Z.pow_add_r in Hq2, HP2 by lia.
  pose proof (Z.mul_div_le (Z.pos mm * 2 ^ 53) (Z.pos mx) ltac:(lia)) as Hqx.
  rewrite <- Hqv in Hqx.
  set (t := es - (em - ex - 53)) in *.
  set (u := eR - (ex + es)) in *.
  assert (2 ^ (- eR) * (2 ^ t * 2 ^ u) = 2 ^ (- em) * 2 ^ 53) as Hexp.
  { rewrite <- !Z.pow_add_r by lia. f_equal. lia. }
  assert (0 < 2 ^ t) as HT by (apply Z.pow_pos_nonneg; lia).
  assert (0 < 2 ^ u) as HU by (apply Z.pow_pos_nonneg; lia).
  assert (0 < 2 ^ (- em)) as HA by (apply Z.pow_pos_nonneg; lia).
  rewrite Pos2Z.inj_mul in HP1, HP2, HRu.
  assert (Z.pos R * 2 ^ u * 2 ^ t < 2 ^ (- em) * 2 ^ 53 * (M + 1)) as Hlt.
  { apply (scale_arith M (2 ^ (- em)) (Z.pos mm) (Z.pos mx) (Z.pos q) (Z.pos ms)
             (2 ^ t) (2 ^ nq) (2 ^ n) (Z.pos R) (2 ^ u));
      first [done|lia]. }
  rewrite <- Hexp in Hlt.
  apply (Z.mul_lt_mono_pos_r (2 ^ t * 2 ^ u)); [lia|].
  eapply Z.le_lt_trans; [|eapply Z.lt_le_trans; [exact Hlt|]];
    apply Z.eq_le_incl; ring.
Qed.
Lemma round_aux_neg (m e : Z) (l : location) :
  nonpos (binary_round_aux prec emax true m e l).
Proof.
  unfold binary_round_aux.
  destruct (shr_fexp prec emax m e l) as [mrs' e'].
  destruct (shr_fexp prec emax _ e' loc_Exact) as [mrs'' e''].
  destruct (shr_m mrs''); [done| |done].
  by destruct (e'' <=? emax - prec).
Qed.

Lemma of_int_nonpos (z : Z) (f : float) : z <= 0 -> of_int z = Ok f -> nonpos f.
Proof.
  intros Hz. unfold of_int, binary_normalize.
  destruct z as [|p|p]; [by intros [= <-]|lia|].
  unfold binary_round. destruct (shl_align _ _ _) as [mz ez].
  pose proof (round_aux_neg (Z.pos mz) ez loc_Exact) as Hn.
  destruct (binary_round_aux prec emax true (Z.pos mz) ez loc_Exact);
    intros [= <-]; done.
Qed.

Lemma div_nonpos (a : float) (mx : positive) (ex : Z) :
  nonpos a -> nonpos (SFdiv prec emax a (S754_finite false mx ex)).
Proof.
  destruct a as [s|s| |s m e]; cbn [SFdiv nonpos]; try done.
  - intros ->. done.
  - intros ->. cbn [xorb].
    destruct (SFdiv_core_binary _ _ _ _ _ _) as [[mz ez] lz].
    apply round_aux_neg.
Qed.

Lemma mul_nonpos (mx : positive) (ex : Z) (b : float) :
  nonpos b -> nonpos (mul (S754_finite false mx ex) b).
Proof.
  destruct b as [s|s| |s m e]; cbn [mul SFmul nonpos]; try done.
  intros ->. cbn [xorb]. apply round_aux_neg.
Qed.

Lemma to_int_nonpos (f : float) (z : Z) : nonpos f -> to_int f = Ok z -> z <= 0.
Proof.
  destruct f as [s|s| |s m e]; cbn [to_int nonpos]; try done.
  - by intros _ [= <-].
  - intros -> [= <-]. cbn [cond_Zopp].
    assert (0 <= Z.shiftl (Z.pos m) e); [|lia]. apply Z.shiftl_nonneg. lia.
Qed.

(** With a target below one pixel the scaled height is below one pixel. *)
Lemma scaled_height_nonpos (M h : Z) (fh fm scale : float) (new_h : Z) :
  M <= 0 -> 0 < h < 2 ^ 53 ->
  of_int h = Ok fh -> of_int M = Ok fm -> div fm fh = Ok scale ->
  to_int (mul fh scale) = Ok new_h -> new_h <= 0.
Proof.
  intros HM Hh Hfh Hfm Hdiv Hint.
  destruct (of_int_exact h) as (mx & ex & Hfh' & _); [lia|].
  rewrite Hfh' in Hfh. injection Hfh as <-.
  apply of_int_nonpos in Hfm; [|done].
  unfold div in Hdiv. cbn [is_zero] in Hdiv.
  assert (scale = SFdiv prec emax fm (S754_finite false mx ex)) as -> by congruence.
  eapply to_int_nonpos; [|exact Hint].
  by apply mul_nonpos, div_nonpos.
Qed.

Lemma of_int_zero : of_int 0 = Ok (S754_zero false).
Proof. reflexivity. Qed.
End PyFloatFacts.

Lemma resize_height (im im' : Image) (new_w new_h : Z) :
  resize im new_w new_h = Ok im' -> height im' = new_h.
Proof.
  unfold resize.
  destruct (_ && _) eqn:Hsame.
  - intros [= <-]. apply andb_true_iff in Hsame as [_ H]. lia.
  - destruct (_ || _); [done|]. by intros [= <-].
Qed.

Lemma scale_image_height_le (max_height : Z) (im im' : Image) :
  0 <= height im < 2 ^ 31 ->
  scale_image max_height im = Ok im' -> height im' <= max_height.
Proof.
  intros Hh. unfold scale_image.
  destruct (Z.ltb_spec max_height (height im)) as [Hlt|Hge];
    [|intros [= <-]; lia].
  intros H.
  apply bind_ok in H as (fh & Hfh & H). apply bind_ok in H as (fm & Hfm & H).
  apply bind_ok in H as (scale & Hscale & H). apply bind_ok in H as (fw & Hfw & H).
  apply bind_ok in H as (new_w & Hnw & H). apply bind_ok in H as (new_h & Hnh & H).
  destruct (Z.eq_dec (height im) 0) as [Hz|Hnz].
  - rewrite Hz, PyFloatFacts.of_int_zero in Hfh. injection Hfh as <-. done.
  - destruct (Z.le_gt_cases 1 max_height) as [Hpos|Hneg].
    + apply resize_height in H. rewrite H.
      eapply PyFloatFacts.scaled_height_le; [exact Hpos|exact Hlt|lia|done..].
    + assert (new_h <= 0) as Hle.
      { eapply (PyFloatFacts.scaled_height_nonpos max_height (height im)); [lia|lia|done..]. }
      unfold resize in H.
      destruct (Z.eqb_spec (height im) new_h) as [Heq|Hne]; [lia|].
      rewrite andb_false_r in H.
      destruct (Z.ltb_spec new_h 1); [|lia].
      rewrite orb_true_r in H. done.
Qed.

(** ** The driver *)

Lemma checkout_checkouts git ref r :
  checkouts (checkout git ref r).1 = checkouts r ++ [ref].
Proof. unfold checkout. by destruct (git ref). Qed.

Lemma checkout_head git ref r :
  head (checkout git ref r).1 = if is_ok (git ref) then checked_out ref r else head r.
Proof. unfold checkout. by destruct (git ref). Qed.

Lemma checked_out_other ref r : ref <> "HEAD" -> checked_out ref r = ref.
Proof.
  intros Hne. unfold checked_out.
  destruct (String.eqb_spec ref "HEAD") as [Heq|_]; [by destruct Hne|done].
Qed.

(** The place a list of successful checkouts leads to. *)
Lemma foldl_checked_out_last (refs : list string) (h c : string) :
  last refs = Some c -> c <> "HEAD" ->
  foldl (fun h ref => if String.eqb ref "HEAD" then h else ref) h refs = c.
Proof.
  intros Hlast Hne. destruct refs as [|c0 refs _] using rev_ind; [done|].
  rewrite last_snoc in Hlast. injection Hlast as ->.
  rewrite foldl_app. cbn.
  destruct (String.eqb_spec c "HEAD") as [Heq|_]; [by destruct Hne|done].
Qed.

Lemma checkout_result git ref r :
  is_ok (checkout git ref r).2 = is_ok (git ref).
Proof. unfold checkout. by destruct (git ref). Qed.

Lemma process_checked_out_saved w a repo_path outdir pdf_name idx commit png :
  process_checked_out w a repo_path outdir pdf_name idx commit = Ok (SAVED png) ->
  png = out_png outdir idx commit.
Proof.
  unfold process_checked_out. intros H.
  apply bind_ok in H as (workdir & _ & H). apply bind_ok in H as (u & _ & H).
  destruct (build_latex _ _ _ _ _ _); [|done].
  destruct (pdf_to_png_pages _ _ _ _ _ _) as [[|p pages]|]; [done| |done].
  destruct (compose_side_by_side _ _ _ _ _); [|done].
  apply bind_ok in H as (u' & _ & H). by injection H as <-.
Qed.

(** What one iteration does to the loop state. *)
Lemma process_commit_spec w a repo_path outdir pdf_name idx commit s s' exc :
  process_commit w a repo_path outdir pdf_name idx commit s = (s', exc) ->
  checkouts (repo s') = checkouts (repo s) ++ [commit] /\
  match exc with
  | Some e =>
      composed_pngs s' = composed_pngs s /\ statuses s' = statuses s /\
      (head (repo s') = checked_out commit (repo s) \/
       git_checkout w commit = Raise e /\ head (repo s') = head (repo s))
  | None =>
      head (repo s') = checked_out commit (repo s) /\
      is_ok (git_checkout w commit) = true /\
      ((composed_pngs s' = composed_pngs s ++ [out_png outdir idx commit] /\
        statuses s' = statuses s ++ [(commit, SAVED (out_png outdir idx commit))]) \/
       (composed_pngs s' = composed_pngs s /\
        exists st, statuses s' = statuses s ++ [(commit, SKIPPED st)]))
  end.
Proof.
  unfold process_commit, checkout.
  destruct (git_checkout w commit) as [u|e] eqn:Hco.
  - destruct (process_checked_out _ _ _ _ _ _ _) as [[png|st]|e] eqn:Hbody.
    + apply process_checked_out_saved in Hbody as ->.
      intros [= <- <-]. cbn. split; [done|]. split; [done|]. split; [done|].
      by left.
    + intros [= <- <-]. cbn. split; [done|]. split; [done|]. split; [done|].
      right. split; [done|]. by exists st.
    + intros [= <- <-]. cbn. split; [done|]. split; [done|]. split; [done|].
      by left.
  - intros [= <- <-]. cbn. split; [done|]. split; [done|]. split; [done|].
    by right.
Qed.


(** The frames written by the loop follow the commits it was given. *)
Lemma commits_loop_pngs w a repo_path outdir pdf_name cs s s' exc :
  commits_loop w a repo_path outdir pdf_name cs s = (s', exc) ->
  exists kept,
    kept `sublist_of` cs /\
    composed_pngs s' = composed_pngs s ++ (png_of outdir <$> kept).
Proof.
  revert s. induction cs as [|[idx c] cs IH]; intros s; cbn [commits_loop].
  - intros [= <- <-]. exists []. split; [done|]. by rewrite app_nil_r.
  - destruct (process_commit _ _ _ _ _ _ _ _) as [s1 [e|]] eqn:Hstep;
      apply process_commit_spec in Hstep as (_ & Hstep).
    + intros [= <- <-]. destruct Hstep as (-> & _).
      exists []. split; [apply sublist_nil_l|]. by rewrite app_nil_r.
    + intros Hloop. apply IH in Hloop as (kept & Hsub & ->).
      destruct Hstep as (_ & _ & [[-> _]|[-> _]]).
      * exists ((idx, c) :: kept). split; [by apply sublist_skip|].
        by rewrite <- app_assoc.
      * exists kept. split; [by apply sublist_cons|done].
Qed.

(** A loop that ends without an exception has checked out every commit,
    in order, and given each one a status. *)
Lemma commits_loop_done w a repo_path outdir pdf_name cs s s' :
  commits_loop w a repo_path outdir pdf_name cs s = (s', None) ->
  checkouts (repo s') = checkouts (repo s) ++ cs.*2 /\
  (statuses s').*1 = (statuses s).*1 ++ cs.*2 /\
  head (repo s')
    = foldl (fun h ref => if String.eqb ref "HEAD" then h else ref)
        (head (repo s)) cs.*2 /\
  Forall (fun ic => is_ok (git_checkout w ic.2) = true) cs.
Proof.
  revert s. induction cs as [|[idx c] cs IH]; intros s; cbn [commits_loop].
  - intros [= <-]. cbn. by rewrite !app_nil_r.
  - destruct (process_commit _ _ _ _ _ _ _ _) as [s1 [e|]] eqn:Hstep; [done|].
    apply process_commit_spec in Hstep as (Hco & Hhead & Hok & Hst).
    intros Hloop. apply IH in Hloop as (-> & -> & -> & Hall).
    rewrite Hco, Hhead. cbn [fmap list_fmap snd].
    split; [by rewrite <- app_assoc|]. split.
    + destruct Hst as [[_ ->]|[_ [st ->]]]; rewrite fmap_app, <- app_assoc; done.
    + split; [done|by constructor].
Qed.

Lemma enumerate1_snd {A} (l : list A) : (enumerate1 l).*2 = l.
Proof. unfold enumerate1. apply snd_zip. rewrite length_seqZ. lia. Qed.

Lemma enumerate1_length {A} (l : list A) : length (enumerate1 l) = length l.
Proof. rewrite <- (enumerate1_snd l) at 2. by rewrite length_fmap. Qed.

Lemma ensure_tools_exist_ok wh :
  ensure_tools_exist wh = Ok () <-> wh "git" <> None /\ wh "pdftoppm" <> None.
Proof.
  unfold ensure_tools_exist. cbn.
  destruct (wh "git"), (wh "pdftoppm"); cbn;
    (split; [done|intros [? ?]; congruence]) || (split; [intros _; by split|done]).
Qed.

Lemma ensure_tools_exist_raise wh e :
  ensure_tools_exist wh = Raise e -> exists msg, e = RuntimeError msg.
Proof.
  unfold ensure_tools_exist. destruct (filter _ _); [done|].
  intros [= <-]. by eexists.
Qed.

Lemma for_each_imread w pngs frames :
  for_each (fun p => _ ← imread w p; Ok p) pngs = Ok frames -> frames = pngs.
Proof.
  revert frames. induction pngs as [|p pngs IH]; intros frames; cbn.
  - by intros [= <-].
  - intros H. apply bind_ok in H as (p' & Hp & H).
    apply bind_ok in H as (fs & Hfs & H). injection H as <-.
    apply bind_ok in Hp as (u & _ & [= <-]). f_equal. by apply IH.
Qed.

Lemma for_each_imread_ok w pngs :
  Forall (fun p => is_ok (imread w p) = true) pngs ->
  for_each (fun p => _ ← imread w p; Ok p) pngs = Ok pngs.
Proof.
  induction 1 as [|p pngs Hp _ IH]; cbn; [done|].
  destruct (imread w p); [|done]. cbn. by rewrite IH.
Qed.

(** The case analysis of [main], one goal per way out. *)
Ltac main_cases w a :=
  unfold main;
  destruct (path_exists w (resolve w (arg_repo a))) eqn:Hrepo; cbn [negb];
  [ destruct (ensure_tools_exist (which w)) as [[]|etools] eqn:Htools;
    [ destruct (path_exists w (path_join (resolve w (arg_repo a)) (arg_tex a))) eqn:Htex;
      cbn [negb];
      [ destruct (record_head w) as [original|ehead] eqn:Hhead;
        [ destruct (get_commits_touching_file (git_log w)) as [[|c cs]|elog] eqn:Hlog;
          [ | destruct (mkdir w (resolve w (arg_out_dir a))) as [[]|emk] eqn:Hmk;
              [ destruct (commits_loop w a _ _ _ _ _) as [s [eloop|]] eqn:Hloop;
                [ | destruct (checkout (git_checkout_back w) original (repo s))
                      as [r rr] eqn:Hback;
                    destruct (assemble w (arg_out a) (composed_pngs s))
                      as [o anim] eqn:Hasm ]
              | ]
          | ]
        | ]
      | ]
    | ]
  | ].

(** A run whose loop came to its end, taken apart. *)
Lemma main_loop_done w a pdf_name r0 :
  let r := main w (Parsed a) pdf_name r0 in
  run_loop_done r = true ->
  exists original s,
    record_head w = Ok original /\
    get_commits_touching_file (git_log w) = Ok (run_commits r) /\
    run_commits r <> [] /\
    commits_loop w a (resolve w (arg_repo a)) (resolve w (arg_out_dir a)) pdf_name
      (enumerate1 (run_commits r))
      {| repo := r0; composed_pngs := []; statuses := [] |} = (s, None) /\
    run_recorded r = Some original /\
    run_repo r = (checkout (git_checkout_back w) original (repo s)).1 /\
    run_pngs r = composed_pngs s /\
    run_statuses r = statuses s /\
    (run_outcome r, run_animation r) = assemble w (arg_out a) (composed_pngs s).
Proof.
  intros r. subst r. main_cases w a; cbn; try done.
  intros _. exists original, s. rewrite Hback. done.
Qed.

(** C7: the frames are at most as many as the commits and follow the
    order of the commit list: they are the strips of a subsequence of the
    enumerated commits, and a written animation holds exactly these
    frames, in this order. *)
Theorem frames_follow_commits w a pdf_name r0 :
  let r := main w (Parsed a) pdf_name r0 in
  (length (run_pngs r) <= length (run_commits r))%nat /\
  (exists kept,
     kept `sublist_of` enumerate1 (run_commits r) /\
     kept.*2 `sublist_of` run_commits r /\
     run_pngs r = png_of (resolve w (arg_out_dir a)) <$> kept) /\
  (forall frames, run_animation r = Some frames -> frames = run_pngs r).
Proof.
  intros r.
  assert (exists kept,
     kept `sublist_of` enumerate1 (run_commits r) /\
     run_pngs r = png_of (resolve w (arg_out_dir a)) <$> kept) as (kept & Hsub & Hpngs).
  { subst r. main_cases w a; cbn;
      try (exists []; split; [apply sublist_nil_l|done]);
      apply commits_loop_pngs in Hloop as (kept & Hsub & ->); by exists kept. }
  split; [|split].
  - rewrite Hpngs, length_fmap, <- (enumerate1_length (run_commits r)).
    by apply sublist_length.
  - exists kept. split; [done|]. split; [|done].
    rewrite <- (enumerate1_snd (run_commits r)). by apply fmap_sublist.
  - subst r. clear. main_cases w a; cbn; try done.
    unfold assemble in Hasm. destruct (composed_pngs s) as [|p pngs]; [by injection Hasm as <- <-|].
    destruct (for_each _ _) as [frames|e] eqn:Hread; [|by injection Hasm as <- <-].
    apply for_each_imread in Hread as ->.
    destruct (mimsave _ _ _); injection Hasm as <- <-; [|done].
    by intros frames [= <-].
Qed.

(** Where a run whose loop came to its end leaves the repository: the
    commits were checked out in order, the recorded reference is asked for
    last, and [HEAD] as a reference moves nothing. *)
Lemma main_final_repo w a pdf_name r0 :
  let r := main w (Parsed a) pdf_name r0 in
  run_loop_done r = true ->
  exists original,
    record_head w = Ok original /\
    run_recorded r = Some original /\
    run_commits r <> [] /\
    checkouts (run_repo r) = checkouts r0 ++ run_commits r ++ [original] /\
    head (run_repo r)
      = let after_loop :=
          foldl (fun h ref => if String.eqb ref "HEAD" then h else ref)
            (head r0) (run_commits r) in
        if is_ok (git_checkout_back w original) && negb (String.eqb original "HEAD")
        then original else after_loop.
Proof.
  intros r Hdone.
  apply main_loop_done in Hdone
    as (original & s & Hhead & _ & Hne & Hloop & Hrec & Hrepo & _).
  fold r in Hne, Hloop, Hrec, Hrepo.
  apply commits_loop_done in Hloop as (Hco & _ & Hh & _).
  rewrite enumerate1_snd in Hco, Hh. cbn in Hco, Hh.
  exists original. split; [done|]. split; [done|]. split; [done|].
  rewrite Hrepo, checkout_checkouts, checkout_head, Hco, <- app_assoc.
  split; [done|]. cbn zeta. unfold checked_out. rewrite Hh.
  by destruct (is_ok _), (String.eqb original "HEAD").
Qed.


Lemma process_checked_out_no_pages w a repo_path outdir pdf_name idx commit png :
  arg_max_pages a <= 0 ->
  process_checked_out w a repo_path outdir pdf_name idx commit <> Ok (SAVED png).
Proof.
  intros Hcap H. unfold process_checked_out in H.
  apply bind_ok in H as (workdir & _ & H). apply bind_ok in H as (u & _ & H).
  destruct (build_latex _ _ _ _ _ _); [|done].
  unfold pdf_to_png_pages in H. destruct (which w "pdftoppm"); [|done].
  destruct (pdftoppm_run _); [|done]. cbn in H.
  by rewrite seqZ_nil in H.
Qed.

Lemma commits_loop_no_pages w a repo_path outdir pdf_name cs s s' exc :
  arg_max_pages a <= 0 ->
  commits_loop w a repo_path outdir pdf_name cs s = (s', exc) ->
  composed_pngs s' = composed_pngs s.
Proof.
  intros Hcap. revert s. induction cs as [|[idx c] cs IH]; intros s; cbn [commits_loop].
  - by intros [= <- <-].
  - unfold process_commit. destruct (checkout _ _ _) as [r [u|e]].
    + destruct (process_checked_out _ _ _ _ _ _ _) as [[png|st]|e] eqn:Hbody.
      * by apply process_checked_out_no_pages in Hbody.
      * intros H. by apply IH in H as ->.
      * by intros [= <- <-].
    + by intros [= <- <-].
Qed.

(** C9, as the code has it: the composer raises the "no images" error of
    an empty input whenever the slice [images[:max_pages]] is empty, that
    is for [max_pages = 0] and for a negative [max_pages] that takes away
    at least as many images as there are; and with a page cap of 0 a run
    writes no frame at all. *)
Theorem page_cap_zero_no_frame open images max_pages max_height gap w a pdf_name r0 :
  images <> [] ->
  max_pages = 0 \/ (max_pages < 0 /\ Z.of_nat (length images) <= - max_pages) ->
  compose_side_by_side open images max_pages max_height gap
    = compose_side_by_side open [] max_pages max_height gap /\
  compose_side_by_side open images max_pages max_height gap
    = Raise (ValueError "No images to compose.") /\
  (arg_max_pages a = 0 ->
   run_pngs (main w (Parsed a) pdf_name r0) = [] /\ run_animation (main w (Parsed a) pdf_name r0) = None).
Proof.
  intros Hne Hcap.
  assert (slice_to images max_pages = []) as Hslice by (apply slice_to_nil_iff; auto).
  assert (slice_to ([] : list image_arg) max_pages = []) as Hnil
    by (apply slice_to_nil_iff; auto).
  rewrite (compose_empty_slice _ _ _ _ _ Hnil), (compose_empty_slice _ _ _ _ _ Hslice).
  split; [done|]. split; [done|]. intros Hzero.
  assert (run_pngs (main w (Parsed a) pdf_name r0) = []) as Hpngs.
  { main_cases w a; cbn; try done;
      apply commits_loop_no_pages in Hloop; (done || lia). }
  split; [done|]. revert Hpngs. main_cases w a; cbn; try done.
  intros Hs. rewrite Hs in Hasm. by injection Hasm as <- <-.
Qed.

(** C3, as the code has it.  The checks run in the order of the code,
    repository path, tools, target document, commits, and the first that
    fails decides: a missing repository path, a missing target document
    and an empty commit list end the run with [sys.exit(2)], missing tools
    with a [RuntimeError] that nobody catches, which the shell sees as
    status 1; all four leave the repository untouched.  An empty list of
    frames after the loop ends the run with [sys.exit(2)], a failing
    [mimsave] with [sys.exit(1)].  Otherwise, for a command line that
    argparse accepts and when no exception escapes [main], the run
    returns with the animation written: status 0. *)
Theorem exit_status_cases w a pdf_name r0 :
  let r := main w (Parsed a) pdf_name r0 in
  let repo_path := resolve w (arg_repo a) in
  let tex_abs := path_join repo_path (arg_tex a) in
  (path_exists w repo_path = false -> run_outcome r = Exit 2 /\ run_repo r = r0) /\
  (path_exists w repo_path = true ->
   which w "git" = None \/ which w "pdftoppm" = None ->
   (exists msg, run_outcome r = Uncaught (RuntimeError msg)) /\
   exit_status (run_outcome r) = 1 /\ run_repo r = r0) /\
  (path_exists w repo_path = true -> ensure_tools_exist (which w) = Ok () ->
   path_exists w tex_abs = false ->
   run_outcome r = Exit 2 /\ run_repo r = r0) /\
  (path_exists w repo_path = true -> ensure_tools_exist (which w) = Ok () ->
   path_exists w tex_abs = true -> is_ok (record_head w) = true ->
   get_commits_touching_file (git_log w) = Ok [] ->
   run_outcome r = Exit 2 /\ run_repo r = r0) /\
  (run_loop_done r = true -> run_pngs r = [] -> run_outcome r = Exit 2) /\
  (run_loop_done r = true -> run_pngs r <> [] ->
   Forall (fun p => is_ok (imread w p) = true) (run_pngs r) ->
   is_ok (mimsave w (arg_out a) (run_pngs r)) = false ->
   run_outcome r = Exit 1) /\
  (path_exists w repo_path = true -> path_exists w tex_abs = true ->
   get_commits_touching_file (git_log w) <> Ok [] ->
   run_pngs r <> [] -> is_ok (mimsave w (arg_out a) (run_pngs r)) = true ->
   (forall e, run_outcome r <> Uncaught e) ->
   run_outcome r = Returned /\ exit_status (run_outcome r) = 0 /\
   run_animation r = Some (run_pngs r)).
Proof.
  intros r repo_path tex_abs. subst r repo_path tex_abs.
  assert (forall s o anim,
            assemble w (arg_out a) (composed_pngs s) = (o, anim) ->
            (composed_pngs s = [] -> o = Exit 2) /\
            (composed_pngs s <> [] ->
             Forall (fun p => is_ok (imread w p) = true) (composed_pngs s) ->
             is_ok (mimsave w (arg_out a) (composed_pngs s)) = false -> o = Exit 1) /\
            (composed_pngs s <> [] ->
             is_ok (mimsave w (arg_out a) (composed_pngs s)) = true ->
             (forall e, o <> Uncaught e) ->
             o = Returned /\ exit_status o = 0 /\ anim = Some (composed_pngs s)))
    as Hassemble.
  { intros s o anim. unfold assemble.
    destruct (composed_pngs s) as [|p pngs] eqn:Hpngs.
    { intros [= <- <-]. by repeat split. }
    destruct (for_each _ (p :: pngs)) as [frames|e] eqn:Hread.
    - apply for_each_imread in Hread as Hframes. subst frames.
      destruct (mimsave w (arg_out a) (p :: pngs)) eqn:Hsave;
        intros [= <- <-]; cbn; by repeat split.
    - intros [= <- <-]. split; [done|]. split.
      + intros _ Hall. by rewrite for_each_imread_ok in Hread.
      + intros _ _ Hno. by destruct (Hno e). }
  main_cases w a; cbn;
    try (apply ensure_tools_exist_raise in Htools as [msg ->]);
    try (apply ensure_tools_exist_ok in Htools as [Hgit Hpdf]);
    try destruct (Hassemble s o anim Hasm) as (A1 & A2 & A3);
    repeat split; intros; try done; try congruence; try (by eexists);
    try (match goal with H : _ = None \/ _ = None |- _ => by destruct H end);
    try (match goal with H : forall e, Uncaught ?x <> Uncaught e |- _ =>
           by destruct (H x) end);
    try (by apply A2); try (by apply A1); try (by apply A3).
Qed.

Lemma load_image_wf open a im :
  (forall p im, open p = Ok im -> image_wf im) ->
  (forall im, a = ArgImage im -> image_wf im) ->
  load_image open a = Ok im -> image_wf im.
Proof.
  intros Hopen Harg H. unfold load_image in H.
  apply bind_ok in H as (im0 & Him0 & [= <-]).
  change (image_wf im0).
  destruct a as [p|im1]; [by apply (Hopen p)|].
  injection Him0 as <-. by apply Harg.
Qed.

(** C10: a composed strip is never higher than [max_height], for images
    of sizes PIL can hold. *)
Theorem compose_height_le_max open images max_pages max_height gap strip :
  (forall p im, open p = Ok im -> image_wf im) ->
  (forall im, ArgImage im ∈ images -> image_wf im) ->
  compose_side_by_side open images max_pages max_height gap = Ok strip ->
  height strip <= max_height.
Proof.
  intros Hopen Hargs H.
  apply compose_ok_inv in H as (imgs & scaled & max_h & _ & Hload & Hscale & Hmax & ->).
  cbn. apply py_max_spec in Hmax as [Hin _].
  apply list_elem_of_fmap in Hin as (im' & -> & Him').
  apply for_each_ok_Forall2 in Hload, Hscale.
  destruct (proj1 (list_elem_of_lookup _ _) Him') as [i Hi].
  destruct (Forall2_lookup_r _ _ _ _ _ Hscale Hi) as (im & Him & Hsc).
  destruct (Forall2_lookup_r _ _ _ _ _ Hload Him) as (arg & Harg & Hld).
  apply (scale_image_height_le _ im); [|done].
  assert (arg ∈ images) as Hmem.
  { unfold slice_to in Harg. apply lookup_take_Some in Harg as [Harg _].
    by apply list_elem_of_lookup_2 in Harg. }
  eapply (load_image_wf open arg) in Hld; [apply Hld|done|].
  intros im0 ->. by apply Hargs.
Qed.

(** ** The claims on concrete runs *)

(** The example of the specification: pages 1, 2 and 4 exist, the cap is
    10, and pages 1 and 2 are collected. *)
Lemma pdf_to_png_pages_contiguous_witness :
  pdf_to_png_pages demo_which (fun _ => Ok demo_pages)
    "/repo/main.pdf" "/repo/latex_build_0/page" 150 10
    = Ok ["/repo/latex_build_0/page-1.png"; "/repo/latex_build_0/page-2.png"] /\
  exists k : Z,
    0 <= k <= Z.max 0 10 /\
    pdf_to_png_pages demo_which (fun _ => Ok demo_pages)
      "/repo/main.pdf" "/repo/latex_build_0/page" 150 10
      = Ok (page_path "/repo/latex_build_0/page" <$> seqZ 1 k) /\
    (forall i, 1 <= i <= k -> page_path "/repo/latex_build_0/page" i ∈ demo_pages) /\
    (k < 10 -> page_path "/repo/latex_build_0/page" (k + 1) ∉ demo_pages).
Proof.
  split; [vm_compute; reflexivity|].
  apply (pdf_to_png_pages_contiguous demo_which (fun _ => Ok demo_pages)
           "/repo/main.pdf" "/repo/latex_build_0/page" 150 10
           "/usr/bin/pdftoppm" demo_pages); reflexivity.
Defined.

Lemma compose_strip_size_witness :
  exists scaled,
    for_each (fun a => im ← load_image no_open a; scale_image 1200 im) two_pages
      = Ok scaled /\
    width (rgb 1862 1200)
      = foldr Z.add 0 (width <$> scaled) + 8 * (Z.of_nat (length two_pages) - 1) /\
    height (rgb 1862 1200) ∈ height <$> scaled /\
    Forall (fun h => h <= height (rgb 1862 1200)) (height <$> scaled).
Proof.
  apply (compose_strip_size no_open two_pages 10 1200 8 (rgb 1862 1200)).
  - vm_compute. split; discriminate.
  - vm_compute. reflexivity.
Defined.

Lemma compose_height_le_max_witness : height (rgb 1862 1200) <= 1200.
Proof.
  apply (compose_height_le_max no_open two_pages 10 1200 8 (rgb 1862 1200)).
  - intros p im H. discriminate H.
  - intros im Hin. unfold two_pages in Hin.
    apply elem_of_cons in Hin as [Hin|Hin]; [injection Hin as ->; vm_compute; intuition discriminate|].
    apply elem_of_cons in Hin as [Hin|Hin]; [injection Hin as ->; vm_compute; intuition discriminate|].
    by apply elem_of_nil in Hin.
  - vm_compute. reflexivity.
Defined.


(** C9 as stated fails for a negative cap: [images[:-1]] of two images
    still holds one image, and the strip is composed. *)
Lemma negative_cap_composes :
  two_pages <> [] /\ -1 <= 0 /\
  compose_side_by_side no_open two_pages (-1) 1200 8 = Ok (rgb 927 1200) /\
  compose_side_by_side no_open two_pages (-1) 1200 8
    <> Raise (ValueError "No images to compose.").
Proof. vm_compute. repeat split; discriminate. Qed.

Lemma page_cap_zero_no_frame_witness :
  compose_side_by_side no_open two_pages 0 1200 8
    = compose_side_by_side no_open [] 0 1200 8 /\
  compose_side_by_side no_open two_pages 0 1200 8
    = Raise (ValueError "No images to compose.") /\
  (arg_max_pages zero_cap_args = 0 ->
   run_pngs (main (demo_world demo_which always true always always)
               (Parsed zero_cap_args) "main.pdf" demo_repo) = [] /\
   run_animation (main (demo_world demo_which always true always always)
                    (Parsed zero_cap_args) "main.pdf" demo_repo) = None).
Proof.
  apply (page_cap_zero_no_frame no_open two_pages 0 1200 8
           (demo_world demo_which always true always always)
           zero_cap_args "main.pdf" demo_repo).
  - discriminate.
  - left. reflexivity.
Defined.

(** C1 on two runs over three commits.  When git cannot check out the
    second commit, or when the strip of the second commit cannot be
    written, the exception leaves the loop: the second commit is not
    skipped, the third is never processed, the original reference is not
    restored and no animation is written. *)
Theorem stage_failure_aborts_run :
  let checkout_fails :=
    main (demo_world demo_which (all_but "2b2b2b2b2b2b2b2b") true always always)
      (Parsed demo_args) "main.pdf" demo_repo in
  let save_fails :=
    main (demo_world demo_which always true always (all_but "2b2b2b2b2b2b2b2b"))
      (Parsed demo_args) "main.pdf" demo_repo in
  (run_outcome checkout_fails = Uncaught (CalledProcessError "git checkout") /\
   run_statuses checkout_fails
     = [("1a1a1a1a1a1a1a1a", SAVED "/out/composed_0001_1a1a1a1a.png")] /\
   run_repo checkout_fails
     = {| head := "1a1a1a1a1a1a1a1a";
          checkouts := ["1a1a1a1a1a1a1a1a"; "2b2b2b2b2b2b2b2b"] |} /\
   run_animation checkout_fails = None) /\
  (run_outcome save_fails = Uncaught (OSError "/out/composed_0002_2b2b2b2b.png") /\
   run_statuses save_fails
     = [("1a1a1a1a1a1a1a1a", SAVED "/out/composed_0001_1a1a1a1a.png")] /\
   run_repo save_fails
     = {| head := "2b2b2b2b2b2b2b2b";
          checkouts := ["1a1a1a1a1a1a1a1a"; "2b2b2b2b2b2b2b2b"] |} /\
   run_animation save_fails = None).
Proof. vm_compute. repeat split. Qed.



(** C3 as stated fails on three runs.  When pdftoppm is not installed the
    run ends with an uncaught [RuntimeError], status 1 and not 2.  When
    the repository, the tools and the document are there and [git log]
    fails, none of the listed failures has occurred and the status is 1,
    not 0.  When argparse rejects the command line the status is 2, not
    0, before any of the checks. *)
Lemma exit_status_differs :
  let no_tool :=
    main (demo_world which_no_pdftoppm always true always always)
      (Parsed demo_args) "main.pdf" demo_repo in
  let no_log :=
    main (without_git_log (demo_world demo_which always true always always))
      (Parsed demo_args) "main.pdf" demo_repo in
  let rejected :=
    main (demo_world demo_which always true always always)
      UsageError "main.pdf" demo_repo in
  (run_outcome no_tool
     = Uncaught (RuntimeError
                   "Missing required tools in PATH: pdftoppm. Install them and retry.") /\
   exit_status (run_outcome no_tool) = 1 /\ exit_status (run_outcome no_tool) <> 2) /\
  (ensure_tools_exist demo_which = Ok () /\
   run_outcome no_log = Uncaught (CalledProcessError "git log") /\
   exit_status (run_outcome no_log) = 1 /\ exit_status (run_outcome no_log) <> 0) /\
  (exit_status (run_outcome rejected) = 2 /\ exit_status (run_outcome rejected) <> 0).
Proof. vm_compute. repeat split; discriminate. Qed.

Lemma exit_status_cases_witness :
  run_outcome (main (demo_world demo_which always true always always)
                 (Parsed missing_repo_args) "main.pdf" demo_repo) = Exit 2 /\
  run_repo (main (demo_world demo_which always true always always)
              (Parsed missing_repo_args) "main.pdf" demo_repo) = demo_repo.
Proof.
  destruct (exit_status_cases (demo_world demo_which always true always always)
              missing_repo_args "main.pdf" demo_repo) as (Hrepo & _).
  apply Hrepo. vm_compute. reflexivity.
Defined.

Lemma frames_follow_commits_witness :
  let r := main (demo_world demo_which always true (all_but "2b2b2b2b2b2b2b2b") always)
             (Parsed demo_args) "main.pdf" demo_repo in
  (length (run_pngs r) <= length (run_commits r))%nat /\
  (exists kept,
     kept `sublist_of` enumerate1 (run_commits r) /\
     kept.*2 `sublist_of` run_commits r /\
     run_pngs r = png_of (resolve (demo_world demo_which always true
                                     (all_but "2b2b2b2b2b2b2b2b") always)
                            (arg_out_dir demo_args)) <$> kept) /\
  (forall frames, run_animation r = Some frames -> frames = run_pngs r).
Proof.
  exact (frames_follow_commits
           (demo_world demo_which always true (all_but "2b2b2b2b2b2b2b2b") always)
           demo_args "main.pdf" demo_repo).
Defined.

(** * Further properties of the code *)

(** ** The loop body *)

(** X1: inside the temporary-directory block a failing build, a failing
    rasterisation, an empty page list or a failing composition never
    raises; an exception leaves the block only from the creation of the
    temporary directory, of its [out] directory, or from saving the strip. *)
Theorem block_exception_sources w a repo_path outdir pdf_name idx commit e :
  process_checked_out w a repo_path outdir pdf_name idx commit = Raise e ->
  tempdir (commit_env w commit) = Raise e \/
  (exists workdir, tempdir (commit_env w commit) = Ok workdir /\
                   mkdir w (path_join workdir "out") = Raise e) \/
  image_save (commit_env w commit) (out_png outdir idx commit) = Raise e.
Proof.
  unfold process_checked_out.
  destruct (tempdir (commit_env w commit)) as [workdir|e0] eqn:Htmp; cbn;
    [|intros [= <-]; by left].
  destruct (mkdir w (path_join workdir "out")) as [u|e0] eqn:Hmk; cbn;
    [|intros [= <-]; right; left; by exists workdir].
  destruct (build_latex _ _ _ _ _ _); [|done].
  destruct (pdf_to_png_pages _ _ _ _ _ _) as [[|p pages]|]; [done| |done].
  destruct (compose_side_by_side _ _ _ _ _); [|done].
  destruct (image_save _ _) as [u'|e0]; cbn; [done|].
  intros [= <-]. by right; right.
Qed.

Lemma block_exception_sources_witness :
  tempdir (commit_env (demo_world demo_which always true always (all_but "2b2b2b2b2b2b2b2b"))
             "2b2b2b2b2b2b2b2b")
    = Raise (OSError "/out/composed_0002_2b2b2b2b.png") \/
  (exists workdir,
     tempdir (commit_env (demo_world demo_which always true always (all_but "2b2b2b2b2b2b2b2b"))
                "2b2b2b2b2b2b2b2b") = Ok workdir /\
     mkdir (demo_world demo_which always true always (all_but "2b2b2b2b2b2b2b2b"))
       (path_join workdir "out") = Raise (OSError "/out/composed_0002_2b2b2b2b.png")) \/
  image_save (commit_env (demo_world demo_which always true always (all_but "2b2b2b2b2b2b2b2b"))
                "2b2b2b2b2b2b2b2b") (out_png "/out" 2 "2b2b2b2b2b2b2b2b")
    = Raise (OSError "/out/composed_0002_2b2b2b2b.png").
Proof.
  apply (block_exception_sources
           (demo_world demo_which always true always (all_but "2b2b2b2b2b2b2b2b"))
           demo_args "/repo" "/out" "main.pdf" 2 "2b2b2b2b2b2b2b2b").
  vm_compute. reflexivity.
Defined.

(** X2: the three guarded stages skip and continue.  When the commit is
    checked out and its temporary directories exist, a failure of
    [build_latex], of [pdf_to_png_pages] or of [compose_side_by_side], or
    an empty page list, ends the iteration without an exception, with the
    frame list unchanged, the commit recorded as skipped and the
    repository where the checkout of the commit has put it. *)
Theorem guarded_stage_skips w a repo_path outdir pdf_name idx commit s workdir :
  is_ok (git_checkout w commit) = true ->
  tempdir (commit_env w commit) = Ok workdir ->
  is_ok (mkdir w (path_join workdir "out")) = true ->
  let pdf := build_latex (which w) (mkdir w) (commit_env w commit) pdf_name repo_path
               (path_join workdir "out") in
  let pages pdf_path :=
    pdf_to_png_pages (which w) (fun _ => pdftoppm_run (commit_env w commit)) pdf_path
      (path_join workdir "page") (arg_dpi a) (arg_max_pages a) in
  let strip ps :=
    compose_side_by_side (image_open (commit_env w commit)) (ArgPath <$> ps)
      (arg_max_pages a) 1200 8 in
  is_ok pdf = false \/
  (exists pdf_path, pdf = Ok pdf_path /\
     (is_ok (pages pdf_path) = false \/ pages pdf_path = Ok [] \/
      exists ps, pages pdf_path = Ok ps /\ is_ok (strip ps) = false)) ->
  exists st s',
    process_commit w a repo_path outdir pdf_name idx commit s = (s', None) /\
    composed_pngs s' = composed_pngs s /\
    statuses s' = statuses s ++ [(commit, SKIPPED st)] /\
    head (repo s') = checked_out commit (repo s).
Proof.
  intros Hco Htmp Hmk pdf pages strip Hfail.
  unfold process_commit, checkout, process_checked_out.
  destruct (git_checkout w commit) as [u|]; [|done].
  rewrite Htmp. cbn. destruct (mkdir w (path_join workdir "out")); [|done]. cbn.
  fold pdf.
  destruct Hfail as [Hpdf|(pdf_path & -> & Hfail)].
  { destruct pdf; [done|]. by eexists Build, _. }
  fold (pages pdf_path).
  destruct Hfail as [Hpages|[->|(ps & -> & Hstrip)]].
  - destruct (pages pdf_path); [done|]. by eexists Rasterize, _.
  - by eexists Rasterize, _.
  - destruct ps as [|p ps]; [by eexists Rasterize, _|].
    fold (strip (p :: ps)). destruct (strip (p :: ps)); [done|].
    by eexists Compose, _.
Qed.

Lemma guarded_stage_skips_witness :
  exists st s',
    process_commit (demo_world demo_which always true (all_but "2b2b2b2b2b2b2b2b") always)
      demo_args "/repo" "/out" "main.pdf" 2 "2b2b2b2b2b2b2b2b"
      {| repo := demo_repo; composed_pngs := []; statuses := [] |} = (s', None) /\
    composed_pngs s' = [] /\
    statuses s' = [] ++ [("2b2b2b2b2b2b2b2b", SKIPPED st)] /\
    head (repo s') = "2b2b2b2b2b2b2b2b".
Proof.
  apply (guarded_stage_skips
           (demo_world demo_which always true (all_but "2b2b2b2b2b2b2b2b") always)
           demo_args "/repo" "/out" "main.pdf" 2 "2b2b2b2b2b2b2b2b"
           {| repo := demo_repo; composed_pngs := []; statuses := [] |}
           "/repo/latex_build_0").
  - vm_compute. reflexivity.
  - vm_compute. reflexivity.
  - vm_compute. reflexivity.
  - left. vm_compute. reflexivity.
Defined.

(** ** The loop *)

(** What the loop has done when it stops, with or without an exception:
    [sts] are the statuses it added, one per commit in order; when an
    exception stopped it, one more commit was checked out (or tried). *)
Lemma commits_loop_trace w a repo_path outdir pdf_name cs s s' exc :
  commits_loop w a repo_path outdir pdf_name cs s = (s', exc) ->
  exists sts,
    statuses s' = statuses s ++ sts /\
    composed_pngs s' = composed_pngs s ++ omap saved_png sts /\
    sts.*1 = take (length sts) cs.*2 /\
    (length sts <= length cs)%nat /\
    checkouts (repo s')
      = checkouts (repo s)
        ++ take (length sts + if exc is Some _ then 1 else 0) cs.*2 /\
    (exc = None -> length sts = length cs) /\
    (is_Some exc -> (length sts < length cs)%nat).
Proof.
  revert s. induction cs as [|[idx c] cs IH]; intros s; cbn [commits_loop].
  - intros [= <- <-]. exists []. rewrite !app_nil_r. cbn.
    repeat split; try done; by intros [? ?].
  - destruct (process_commit _ _ _ _ _ _ _ _) as [s1 [e|]] eqn:Hstep;
      apply process_commit_spec in Hstep as (Hco & Hstep).
    + intros [= <- <-]. destruct Hstep as (Hp & Hs & _).
      exists []. rewrite Hp, Hs, Hco, !app_nil_r. cbn.
      repeat split; try done; lia.
    + destruct Hstep as (_ & _ & Hst). intros Hloop.
      apply IH in Hloop as (sts & Hs & Hp & Hfst & Hlen & Hch & Hnone & Hsome).
      assert (exists st, statuses s1 = statuses s ++ [(c, st)] /\
                composed_pngs s1 = composed_pngs s ++ omap saved_png [(c, st)])
        as (st & Hs1 & Hp1).
      { destruct Hst as [[-> ->]|[-> [st ->]]]; eexists; split; try done.
        cbn. by rewrite app_nil_r. }
      exists ((c, st) :: sts). rewrite Hs, Hp, Hch, Hs1, Hp1, Hco, <- !app_assoc.
      cbn [length fmap list_fmap fst snd take Nat.add app].
      rewrite Hfst at 1.
      repeat split; try done.
      * f_equal. cbn. by destruct (saved_png (c, st)).
      * lia.
      * intros ->. by rewrite Hnone.
      * intros H. apply Hsome in H. lia.
Qed.

(** ** main *)

(** X3: the frames are exactly the strips of the commits recorded as
    saved, in the order of the commits; the commits that have a status
    are a prefix of the commit list, and all of it once the loop has come
    to its end: every commit is then either saved or skipped. *)
Theorem statuses_account_for_frames w a pdf_name r0 :
  let r := main w (Parsed a) pdf_name r0 in
  run_pngs r = omap saved_png (run_statuses r) /\
  (run_statuses r).*1 `prefix_of` run_commits r /\
  (run_loop_done r = true -> (run_statuses r).*1 = run_commits r).
Proof.
  intros r. subst r.
  main_cases w a; cbn; try (split; [done|]; split; [apply prefix_nil|done]);
    apply commits_loop_trace in Hloop
      as (sts & -> & -> & Hfst & Hlen & _ & Hnone & _);
    rewrite enumerate1_snd in Hfst; cbn; rewrite Hfst.
  - split; [done|]. split; [apply prefix_take|done].
  - split; [done|]. split; [apply prefix_take|]. intros _.
    rewrite Hnone, enumerate1_length by done. apply firstn_all.
Qed.

Lemma statuses_account_for_frames_witness :
  run_loop_done (main (demo_world demo_which always true (all_but "2b2b2b2b2b2b2b2b") always)
                   (Parsed demo_args) "main.pdf" demo_repo) = true /\
  (run_statuses (main (demo_world demo_which always true (all_but "2b2b2b2b2b2b2b2b") always)
                   (Parsed demo_args) "main.pdf" demo_repo)).*1
    = run_commits (main (demo_world demo_which always true (all_but "2b2b2b2b2b2b2b2b") always)
                     (Parsed demo_args) "main.pdf" demo_repo).
Proof.
  assert (run_loop_done
            (main (demo_world demo_which always true (all_but "2b2b2b2b2b2b2b2b") always)
               (Parsed demo_args) "main.pdf" demo_repo) = true) as Hdone
    by (vm_compute; reflexivity).
  split; [exact Hdone|].
  destruct (statuses_account_for_frames
              (demo_world demo_which always true (all_but "2b2b2b2b2b2b2b2b") always)
              demo_args "main.pdf" demo_repo) as (_ & _ & Hall).
  exact (Hall Hdone).
Defined.

(** X4: git is only ever asked to check out listed commits, oldest
    first and each at most once, and then the recorded reference: the
    checkouts of a run are a prefix of the commit list, followed by the
    recorded reference exactly when the loop has come to its end.  A run
    that an exception takes out of the loop does not go back to the
    recorded reference. *)
Theorem checkouts_follow_commits w a pdf_name r0 :
  let r := main w (Parsed a) pdf_name r0 in
  exists n : nat,
    checkouts (run_repo r)
      = checkouts r0 ++ take n (run_commits r)
        ++ (if run_loop_done r then option_list (run_recorded r) else []) /\
    (run_loop_done r = true -> take n (run_commits r) = run_commits r).
Proof.
  intros r. subst r.
  main_cases w a; cbn; try (exists 0%nat; by rewrite take_0, !app_nil_r);
    apply commits_loop_trace in Hloop
      as (sts & _ & _ & _ & _ & Hch & Hnone & _);
    rewrite enumerate1_snd in Hch; cbn in Hch.
  - eexists. rewrite Hch, app_nil_r. done.
  - exists (length sts + 0)%nat.
    replace r with (checkout (git_checkout_back w) original (repo s)).1
      by (by rewrite Hback).
    rewrite checkout_checkouts, Hch, <- app_assoc. split; [done|]. intros _.
    rewrite Hnone, enumerate1_length, Nat.add_0_r by done. apply firstn_all.
Qed.

Lemma checkouts_follow_commits_witness :
  exists n : nat,
    checkouts (run_repo (main (demo_world demo_which (all_but "2b2b2b2b2b2b2b2b") true
                                 always always) (Parsed demo_args) "main.pdf" demo_repo))
      = checkouts demo_repo
        ++ take n (run_commits (main (demo_world demo_which (all_but "2b2b2b2b2b2b2b2b")
                                        true always always)
                                  (Parsed demo_args) "main.pdf" demo_repo))
        ++ [].
Proof.
  destruct (checkouts_follow_commits
              (demo_world demo_which (all_but "2b2b2b2b2b2b2b2b") true always always)
              demo_args "main.pdf" demo_repo) as (n & Hn & _).
  exists n. exact Hn.
Defined.

(** X5: an animation is written only from at least one frame, after
    every commit was tried and the recorded reference was checked out
    again (or tried), and [main] then returns. *)
Theorem animation_needs_frames w a pdf_name r0 frames :
  let r := main w (Parsed a) pdf_name r0 in
  run_animation r = Some frames ->
  frames <> [] /\ run_outcome r = Returned /\ run_loop_done r = true /\
  is_ok (mimsave w (arg_out a) frames) = true /\
  last (checkouts (run_repo r)) = run_recorded r.
Proof.
  intros r. subst r. main_cases w a; cbn; try done.
  replace r with (checkout (git_checkout_back w) original (repo s)).1
    by (by rewrite Hback).
  rewrite checkout_checkouts, last_snoc.
  unfold assemble in Hasm. destruct (composed_pngs s) as [|p pngs];
    [by injection Hasm as <- <-|].
  destruct (for_each _ _) as [fs|] eqn:Hread; [|by injection Hasm as <- <-].
  apply for_each_imread in Hread as ->.
  destruct (mimsave w (arg_out a) (p :: pngs)) eqn:Hsave;
    injection Hasm as <- <-; [|done].
  intros [= <-]. by rewrite Hsave.
Qed.

Lemma animation_needs_frames_witness :
  ["/out/composed_0001_1a1a1a1a.png"; "/out/composed_0003_3c3c3c3c.png"] <> [] /\
  run_outcome (main (demo_world demo_which always true (all_but "2b2b2b2b2b2b2b2b") always)
                 (Parsed demo_args) "main.pdf" demo_repo) = Returned.
Proof.
  destruct (animation_needs_frames
              (demo_world demo_which always true (all_but "2b2b2b2b2b2b2b2b") always)
              demo_args "main.pdf" demo_repo
              ["/out/composed_0001_1a1a1a1a.png"; "/out/composed_0003_3c3c3c3c.png"])
    as (Hne & Hret & _).
  - vm_compute. reflexivity.
  - split; [exact Hne|exact Hret].
Defined.

(** ** build_latex *)

(** X6: a path returned by [build_latex] is the PDF of the tool that
    built it, and the file exists: either latexmk ran and left
    [workdir/pdf_name], or both pdflatex passes ran and the second left
    [build_outdir/pdf_name]. *)
Theorem build_latex_pdf_exists wh mk e pdf_name workdir build_outdir pdf :
  build_latex wh mk e pdf_name workdir build_outdir = Ok pdf ->
  (pdf = path_join workdir pdf_name /\ is_Some (wh "latexmk") /\
   exists files, latexmk_run e = Ok files /\ pdf ∈ files) \/
  (pdf = path_join build_outdir pdf_name /\ is_Some (wh "pdflatex") /\
   is_ok (mk build_outdir) = true /\ is_ok (pdflatex_run e 0) = true /\
   exists files, pdflatex_run e 1 = Ok files /\ pdf ∈ files).
Proof.
  unfold build_latex.
  set (fallback := match wh "pdflatex" with None => _ | Some _ => _ end).
  assert (fallback = Ok pdf ->
          pdf = path_join build_outdir pdf_name /\ is_Some (wh "pdflatex") /\
          is_ok (mk build_outdir) = true /\ is_ok (pdflatex_run e 0) = true /\
          exists files, pdflatex_run e 1 = Ok files /\ pdf ∈ files) as Hfb.
  { subst fallback. destruct (wh "pdflatex") as [exe|]; [|done].
    destruct (mk build_outdir); [|done]. cbn.
    destruct (pdflatex_run e 0) as [f0|[]]; try done. cbn.
    destruct (pdflatex_run e 1) as [f1|[]]; try done. cbn.
    destruct (bool_decide_reflect (path_join build_outdir pdf_name ∈ f1)); [|done].
    intros [= <-]. repeat split; try done. by exists f1. }
  destruct (wh "latexmk") as [exe|]; [|intros H; right; by apply Hfb].
  destruct (latexmk_run e) as [files|[]]; try done;
    try (intros H; right; by apply Hfb).
  destruct (bool_decide_reflect (path_join workdir pdf_name ∈ files));
    [|intros H; right; by apply Hfb].
  intros [= <-]. left. repeat split; try done. by exists files.
Qed.

Lemma build_latex_pdf_exists_witness :
  ("/repo/main.pdf" = path_join "/repo" "main.pdf" /\ is_Some (demo_which "latexmk") /\
   exists files, latexmk_run (demo_env true true) = Ok files /\ "/repo/main.pdf" ∈ files) \/
  ("/repo/main.pdf" = path_join "/repo/latex_build_0/out" "main.pdf" /\
   is_Some (demo_which "pdflatex") /\
   is_ok (Ok () : result unit) = true /\
   is_ok (pdflatex_run (demo_env true true) 0) = true /\
   exists files, pdflatex_run (demo_env true true) 1 = Ok files /\ "/repo/main.pdf" ∈ files).
Proof.
  apply (build_latex_pdf_exists demo_which (fun _ => Ok ()) (demo_env true true)
           "main.pdf" "/repo" "/repo/latex_build_0/out" "/repo/main.pdf").
  vm_compute. reflexivity.
Defined.

(** X7: when latexmk is installed but exits with an error, or leaves no
    PDF, [build_latex] does exactly what it does on a machine without
    latexmk: it falls back to the two pdflatex passes. *)
Theorem build_latex_falls_back wh mk e pdf_name workdir build_outdir :
  (exists cmd, latexmk_run e = Raise (CalledProcessError cmd)) \/
  (exists files, latexmk_run e = Ok files /\ path_join workdir pdf_name ∉ files) ->
  build_latex wh mk e pdf_name workdir build_outdir
    = build_latex (without_latexmk wh) mk e pdf_name workdir build_outdir.
Proof.
  intros Hfail. unfold build_latex, without_latexmk. cbn.
  destruct (wh "latexmk") as [exe|]; [|done].
  destruct Hfail as [[cmd ->]|(files & -> & Hnot)]; [done|].
  by destruct (bool_decide_reflect (path_join workdir pdf_name ∈ files)).
Qed.

Lemma build_latex_falls_back_witness :
  build_latex demo_which (fun _ => Ok ()) (demo_env false true)
    "main.pdf" "/repo" "/repo/latex_build_0/out"
  = build_latex (without_latexmk demo_which) (fun _ => Ok ()) (demo_env false true)
      "main.pdf" "/repo" "/repo/latex_build_0/out".
Proof.
  apply (build_latex_falls_back demo_which (fun _ => Ok ()) (demo_env false true)
           "main.pdf" "/repo" "/repo/latex_build_0/out").
  left. exists "latexmk". vm_compute. reflexivity.
Defined.

(** X8: a [CalledProcessError] never leaves [build_latex]: the one of
    latexmk is swallowed and the one of a pdflatex pass is turned into a
    [RuntimeError]. *)
Theorem build_latex_no_called_process_error wh mk e pdf_name workdir build_outdir exc :
  (forall cmd, mk build_outdir <> Raise (CalledProcessError cmd)) ->
  build_latex wh mk e pdf_name workdir build_outdir = Raise exc ->
  forall cmd, exc <> CalledProcessError cmd.
Proof.
  intros Hmk. unfold build_latex.
  set (fallback := match wh "pdflatex" with None => _ | Some _ => _ end).
  assert (fallback = Raise exc -> forall cmd, exc <> CalledProcessError cmd) as Hfb.
  { subst fallback. destruct (wh "pdflatex") as [exe|]; [|by intros [= <-]].
    destruct (mk build_outdir) as [u|emk] eqn:Hmkdir; cbn.
    - destruct (pdflatex_run e 0) as [f0|[]]; cbn; try (by intros [= <-]).
      destruct (pdflatex_run e 1) as [f1|[]]; cbn; try (by intros [= <-]).
      destruct (bool_decide _); [done|]. by intros [= <-].
    - intros [= <-] cmd ->. by apply (Hmk cmd). }
  destruct (wh "latexmk") as [exe|]; [|done].
  destruct (latexmk_run e) as [files|elm] eqn:Hlm.
  - by destruct (bool_decide _).
  - destruct elm; try done; by intros [= <-].
Qed.

Lemma build_latex_no_called_process_error_witness :
  build_latex demo_which (fun _ => Ok ()) (demo_env false true)
    "main.pdf" "/repo" "/repo/latex_build_0/out"
    = Raise (RuntimeError ("pdflatex failed on pass 1:" +:+ newline +:+ "pdflatex")) /\
  RuntimeError ("pdflatex failed on pass 1:" +:+ newline +:+ "pdflatex")
    <> CalledProcessError "pdflatex".
Proof.
  split; [vm_compute; reflexivity|].
  apply (build_latex_no_called_process_error demo_which (fun _ => Ok ())
           (demo_env false true) "main.pdf" "/repo" "/repo/latex_build_0/out").
  - intros cmd H. discriminate H.
  - vm_compute. reflexivity.
Defined.

(** ** pdf_to_png_pages *)

Lemma collect_pages_app files out_prefix l1 l2 :
  collect_pages files out_prefix l1
    `prefix_of` collect_pages files out_prefix (l1 ++ l2).
Proof.
  induction l1 as [|i l1 IH]; cbn; [apply prefix_nil|].
  destruct (bool_decide _); [|apply prefix_nil]. by apply prefix_cons.
Qed.

(** X9: raising the page cap only adds pages at the end: the pages
    collected under a cap are a prefix of those collected under any
    larger cap. *)
Theorem pdf_to_png_pages_cap_monotone which run pdf_path out_prefix dpi m1 m2 pages1 :
  m1 <= m2 ->
  pdf_to_png_pages which run pdf_path out_prefix dpi m1 = Ok pages1 ->
  exists pages2,
    pdf_to_png_pages which run pdf_path out_prefix dpi m2 = Ok pages2 /\
    pages1 `prefix_of` pages2.
Proof.
  intros Hle. unfold pdf_to_png_pages. destruct (which "pdftoppm"); [|done].
  destruct (run _) as [files|]; [|done]. cbn. intros [= <-].
  eexists. split; [done|].
  destruct (Z.le_gt_cases m1 0) as [Hneg|Hpos].
  - rewrite (seqZ_nil 1 m1) by done. apply prefix_nil.
  - replace m2 with (m1 + (m2 - m1)) by lia.
    rewrite seqZ_app by lia. apply collect_pages_app.
Qed.

Lemma pdf_to_png_pages_cap_monotone_witness :
  exists pages2,
    pdf_to_png_pages demo_which (fun _ => Ok demo_pages)
      "/repo/main.pdf" "/repo/latex_build_0/page" 150 10 = Ok pages2 /\
    ["/repo/latex_build_0/page-1.png"] `prefix_of` pages2.
Proof.
  apply (pdf_to_png_pages_cap_monotone demo_which (fun _ => Ok demo_pages)
           "/repo/main.pdf" "/repo/latex_build_0/page" 150 1 10).
  - lia.
  - vm_compute. reflexivity.
Defined.

(** X10: a missing page file is never an error: [pdf_to_png_pages]
    raises only when pdftoppm is not found, and then a [RuntimeError],
    or when the pdftoppm command itself fails, and then its exception. *)
Theorem pdf_to_png_pages_errors which run pdf_path out_prefix dpi max_pages e :
  pdf_to_png_pages which run pdf_path out_prefix dpi max_pages = Raise e ->
  (which "pdftoppm" = None /\ exists msg, e = RuntimeError msg) \/
  (exists exe, which "pdftoppm" = Some exe /\
               run [exe; "-png"; "-r"; pretty dpi; pdf_path; out_prefix] = Raise e).
Proof.
  unfold pdf_to_png_pages. destruct (which "pdftoppm") as [exe|].
  - destruct (run _) as [files|e'] eqn:Hrun; [done|]. cbn. intros [= <-].
    right. by exists exe.
  - intros [= <-]. left. split; [done|]. by eexists.
Qed.

Lemma pdf_to_png_pages_errors_witness :
  (which_no_pdftoppm "pdftoppm" = None /\
   exists msg,
     RuntimeError "pdftoppm not found (required). Install Poppler utilities."
       = RuntimeError msg) \/
  (exists exe, which_no_pdftoppm "pdftoppm" = Some exe /\
     (fun _ : list string => Ok demo_pages)
       [exe; "-png"; "-r"; pretty 150; "/repo/main.pdf"; "/repo/latex_build_0/page"]
     = Raise (RuntimeError "pdftoppm not found (required). Install Poppler utilities.")).
Proof.
  apply (pdf_to_png_pages_errors which_no_pdftoppm (fun _ => Ok demo_pages)
           "/repo/main.pdf" "/repo/latex_build_0/page" 150 10).
  vm_compute. reflexivity.
Defined.

(** ** pdf_to_png_pages and compose_side_by_side together *)

Lemma collect_pages_length files out_prefix l :
  (length (collect_pages files out_prefix l) <= length l)%nat.
Proof.
  induction l as [|i l IH]; cbn; [done|].
  destruct (bool_decide _); cbn; lia.
Qed.

(** X11: the pages collected under a cap all take part in a composition
    under the same cap, as [main] has it: the slice [images[:max_pages]]
    drops none of them. *)
Theorem collected_pages_all_composed which run pdf_path out_prefix dpi max_pages pages
    open max_height gap :
  pdf_to_png_pages which run pdf_path out_prefix dpi max_pages = Ok pages ->
  slice_to (ArgPath <$> pages) max_pages = ArgPath <$> pages /\
  compose_side_by_side open (ArgPath <$> pages) max_pages max_height gap
    = compose_side_by_side open (ArgPath <$> pages)
        (Z.of_nat (length pages)) max_height gap.
Proof.
  intros H.
  assert (pages = [] \/ Z.of_nat (length pages) <= max_pages) as Hlen.
  { unfold pdf_to_png_pages in H. destruct (which "pdftoppm"); [|done].
    destruct (run _) as [files|]; [|done]. cbn in H. injection H as <-.
    destruct (Z.le_gt_cases max_pages 0) as [Hneg|Hpos].
    - left. by rewrite seqZ_nil.
    - right. pose proof (collect_pages_length files out_prefix (seqZ 1 max_pages)) as Hl.
      rewrite length_seqZ in Hl. lia. }
  assert (slice_to (ArgPath <$> pages) max_pages = ArgPath <$> pages) as Hslice.
  { destruct Hlen as [->|Hlen]; [apply slice_to_nil_iff; by left|].
    apply slice_to_all. by rewrite length_fmap. }
  split; [done|]. unfold compose_side_by_side.
  rewrite Hslice, slice_to_all; [done|]. by rewrite length_fmap.
Qed.

Lemma collected_pages_all_composed_witness :
  slice_to (ArgPath <$> ["/repo/latex_build_0/page-1.png"; "/repo/latex_build_0/page-2.png"]) 10
    = ArgPath <$> ["/repo/latex_build_0/page-1.png"; "/repo/latex_build_0/page-2.png"] /\
  compose_side_by_side no_open
    (ArgPath <$> ["/repo/latex_build_0/page-1.png"; "/repo/latex_build_0/page-2.png"])
    10 1200 8
  = compose_side_by_side no_open
      (ArgPath <$> ["/repo/latex_build_0/page-1.png"; "/repo/latex_build_0/page-2.png"])
      (Z.of_nat (length ["/repo/latex_build_0/page-1.png"; "/repo/latex_build_0/page-2.png"]))
      1200 8.
Proof.
  apply (collected_pages_all_composed demo_which (fun _ => Ok demo_pages)
           "/repo/main.pdf" "/repo/latex_build_0/page" 150 10).
  vm_compute. reflexivity.
Defined.

(** ** compose_side_by_side *)

Lemma slice_to_take {A} (l : list A) (stop : Z) :
  0 <= stop -> slice_to l stop = take (Z.to_nat stop) l.
Proof.
  intros H. unfold slice_to. destruct (Z.ltb_spec stop 0); [lia|].
  destruct (Z.le_gt_cases stop (Z.of_nat (length l))).
  - by rewrite Z.min_l.
  - rewrite Z.min_r, Nat2Z.id by lia. rewrite firstn_all.
    symmetry. apply take_ge. lia.
Qed.

(** X12: images after the first [max_pages] play no part: they are not
    opened, and a file among them that cannot be opened does not fail
    the composition. *)
Theorem compose_ignores_images_beyond_cap open images more max_height gap :
  compose_side_by_side open (images ++ more) (Z.of_nat (length images)) max_height gap
    = compose_side_by_side open images (Z.of_nat (length images)) max_height gap.
Proof.
  unfold compose_side_by_side.
  rewrite !slice_to_take, Nat2Z.id by lia.
  by rewrite take_app_length, firstn_all.
Qed.

(** ** The scaling step *)

Module PyFloatMore.
Import PyFloat PyFloatFacts.

(** The two rounding steps of [int(w * (M / float(h)))] as integer
    inequalities: [mm], [mx] and [mw] are the mantissas of [M], [h] and
    [w]; [q] is the integer quotient, [ms] the mantissa of the scale
    factor, [R] the one of the product, and [z] the truncated result. *)
Lemma scale_arith_upper (M A mm h B mx w C mw q ms T Nq Nn R U E z : Z) :
  0 < A -> 0 < B -> 0 < C -> 0 < T -> 0 < U -> 0 < E ->
  0 < mx -> 0 < mw -> 0 < ms -> 0 < q ->
  mm = M * A -> mx = h * B -> mw = w * C ->
  E * (T * U) * B = C * A * 2 ^ 53 ->
  mx * q <= mm * 2 ^ 53 ->
  ms * T <= q + Nq -> 2 ^ 52 * Nq <= q ->
  R * U <= mw * ms + Nn -> 2 ^ 52 * Nn <= mw * ms ->
  z * E <= R ->
  2 ^ 104 * (z * h) <= (2 ^ 52 + 1) * (2 ^ 52 + 1) * (w * M).
Proof.
  intros HA HB HC HT HU HE Hmx Hmw Hms Hq0 Emm Emx Emw Hexp Hq Hs HNq HR HNn Hz.
  assert (2 ^ 52 * (R * U) <= (2 ^ 52 + 1) * (mw * ms)) as S1.
  { set (P := mw * ms) in *. set (X := R * U) in *. lia. }
  assert (2 ^ 52 * (ms * T) <= (2 ^ 52 + 1) * q) as S2.
  { set (Y := ms * T) in *. lia. }
  assert (z * E * (U * T * mx) <= R * (U * T * mx)) as S3.
  { apply Z.mul_le_mono_nonneg_r; [|exact Hz].
    apply Z.mul_nonneg_nonneg; [apply Z.mul_nonneg_nonneg|]; lia. }
  assert (T * mx * (2 ^ 52 * (R * U)) <= T * mx * ((2 ^ 52 + 1) * (mw * ms))) as S4.
  { apply Z.mul_le_mono_nonneg_l; [apply Z.mul_nonneg_nonneg; lia|exact S1]. }
  assert (mw * mx * (2 ^ 52 * (ms * T)) <= mw * mx * ((2 ^ 52 + 1) * q)) as S5.
  { apply Z.mul_le_mono_nonneg_l; [apply Z.mul_nonneg_nonneg; lia|exact S2]. }
  assert (mw * (mx * q) <= mw * (mm * 2 ^ 53)) as S6.
  { apply Z.mul_le_mono_nonneg_l; [lia|exact Hq]. }
  set (K := C * A * 2 ^ 53) in *.
  assert (0 < K) as HK by (subst K; apply Z.mul_pos_pos; [apply Z.mul_pos_pos|]; lia).
  assert (K * (2 ^ 104 * (z * h)) <= K * ((2 ^ 52 + 1) * (2 ^ 52 + 1) * (w * M))) as S7.
  { apply Z.le_trans with (2 ^ 104 * (z * E * (U * T * mx)));
      [apply Z.eq_le_incl; rewrite <- Hexp; subst mx; ring|].
    apply Z.le_trans with (2 ^ 104 * (R * (U * T * mx)));
      [apply Z.mul_le_mono_nonneg_l; [lia|exact S3]|].
    apply Z.le_trans with (2 ^ 52 * (T * mx * (2 ^ 52 * (R * U))));
      [apply Z.eq_le_incl; ring|].
    apply Z.le_trans with (2 ^ 52 * (T * mx * ((2 ^ 52 + 1) * (mw * ms))));
      [apply Z.mul_le_mono_nonneg_l; [lia|exact S4]|].
    apply Z.le_trans with ((2 ^ 52 + 1) * (mw * mx * (2 ^ 52 * (ms * T))));
      [apply Z.eq_le_incl; ring|].
    apply Z.le_trans with ((2 ^ 52 + 1) * (mw * mx * ((2 ^ 52 + 1) * q)));
      [apply Z.mul_le_mono_nonneg_l; [lia|exact S5]|].
    apply Z.le_trans with ((2 ^ 52 + 1) * (2 ^ 52 + 1) * (mw * (mx * q)));
      [apply Z.eq_le_incl; ring|].
    apply Z.le_trans with ((2 ^ 52 + 1) * (2 ^ 52 + 1) * (mw * (mm * 2 ^ 53)));
      [apply Z.mul_le_mono_nonneg_l; [lia|exact S6]|].
    apply Z.eq_le_incl. subst K mw mm. ring. }
  apply Z.mul_le_mono_pos_l in S7; [exact S7|exact HK].
Qed.

Lemma scale_arith_lower (M A mm h B mx w C mw q ms T Nq Nn R U E z : Z) :
  0 < A -> 0 < B -> 0 < C -> 0 < T -> 0 < U -> 0 < E ->
  0 < mx < 2 ^ 53 -> 2 ^ 52 <= mm -> 0 < mw -> 0 < ms -> 0 < q ->
  mm = M * A -> mx = h * B -> mw = w * C ->
  E * (T * U) * B = C * A * 2 ^ 53 ->
  mm * 2 ^ 53 <= mx * q + mx ->
  q - Nq <= ms * T -> 2 ^ 52 * Nq <= q ->
  mw * ms - Nn <= R * U -> 2 ^ 52 * Nn <= mw * ms ->
  R <= (z + 1) * E ->
  (2 ^ 52 - 1) * ((2 ^ 52 - 1) * (2 ^ 52 - 1)) * (w * M) <= 2 ^ 156 * ((z + 1) * h).
Proof.
  intros HA HB HC HT HU HE Hmx Hmm Hmw Hms Hq0 Emm Emx Emw Hexp Hq Hs HNq HR HNn Hz.
  assert ((2 ^ 52 - 1) * (mw * ms) <= 2 ^ 52 * (R * U)) as S1.
  { set (P := mw * ms) in *. set (X := R * U) in *. lia. }
  assert ((2 ^ 52 - 1) * q <= 2 ^ 52 * (ms * T)) as S2.
  { set (Y := ms * T) in *. lia. }
  assert ((2 ^ 52 - 1) * (mm * 2 ^ 53) <= 2 ^ 52 * (mx * q)) as S3.
  { set (Y := mx * q) in *. lia. }
  assert (R * (U * T * mx) <= (z + 1) * E * (U * T * mx)) as S4.
  { apply Z.mul_le_mono_nonneg_r; [|exact Hz].
    apply Z.mul_nonneg_nonneg; [apply Z.mul_nonneg_nonneg|]; lia. }
  assert (T * mx * ((2 ^ 52 - 1) * (mw * ms)) <= T * mx * (2 ^ 52 * (R * U))) as S5.
  { apply Z.mul_le_mono_nonneg_l; [apply Z.mul_nonneg_nonneg; lia|exact S1]. }
  assert (mw * mx * ((2 ^ 52 - 1) * q) <= mw * mx * (2 ^ 52 * (ms * T))) as S6.
  { apply Z.mul_le_mono_nonneg_l; [apply Z.mul_nonneg_nonneg; lia|exact S2]. }
  assert (mw * ((2 ^ 52 - 1) * (mm * 2 ^ 53)) <= mw * (2 ^ 52 * (mx * q))) as S7.
  { apply Z.mul_le_mono_nonneg_l; [lia|exact S3]. }
  set (K := C * A * 2 ^ 53) in *.
  assert (0 < K) as HK by (subst K; apply Z.mul_pos_pos; [apply Z.mul_pos_pos|]; lia).
  assert (K * ((2 ^ 52 - 1) * ((2 ^ 52 - 1) * (2 ^ 52 - 1)) * (w * M))
          <= K * (2 ^ 156 * ((z + 1) * h))) as S8.
  { apply Z.le_trans with ((2 ^ 52 - 1) * (2 ^ 52 - 1) * (mw * ((2 ^ 52 - 1) * (mm * 2 ^ 53))));
      [apply Z.eq_le_incl; subst K mw mm; ring|].
    apply Z.le_trans with ((2 ^ 52 - 1) * (2 ^ 52 - 1) * (mw * (2 ^ 52 * (mx * q))));
      [apply Z.mul_le_mono_nonneg_l; [lia|exact S7]|].
    apply Z.le_trans with ((2 ^ 52 - 1) * 2 ^ 52 * (mw * mx * ((2 ^ 52 - 1) * q)));
      [apply Z.eq_le_incl; ring|].
    apply Z.le_trans with ((2 ^ 52 - 1) * 2 ^ 52 * (mw * mx * (2 ^ 52 * (ms * T))));
      [apply Z.mul_le_mono_nonneg_l; [lia|exact S6]|].
    apply Z.le_trans with (2 ^ 104 * (T * mx * ((2 ^ 52 - 1) * (mw * ms))));
      [apply Z.eq_le_incl; ring|].
    apply Z.le_trans with (2 ^ 104 * (T * mx * (2 ^ 52 * (R * U))));
      [apply Z.mul_le_mono_nonneg_l; [lia|exact S5]|].
    apply Z.le_trans with (2 ^ 156 * (R * (U * T * mx)));
      [apply Z.eq_le_incl; ring|].
    apply Z.le_trans with (2 ^ 156 * ((z + 1) * E * (U * T * mx)));
      [apply Z.mul_le_mono_nonneg_l; [lia|exact S4]|].
    apply Z.eq_le_incl. rewrite <- Hexp. subst mx. ring. }
  apply Z.mul_le_mono_pos_l in S8; [exact S8|exact HK].
Qed.

Lemma round_down_ge (m n : Z) : 0 < m -> 0 <= n -> m - 2 ^ n <= m / 2 ^ n * 2 ^ n.
Proof.
  intros Hm Hn. assert (0 < 2 ^ n) by (apply Z.pow_pos_nonneg; lia).
  pose proof (Z.mod_pos_bound m (2 ^ n) ltac:(lia)).
  pose proof (Z.div_mod m (2 ^ n) ltac:(lia)). lia.
Qed.

(** [z = int(w * (M / float(h)))] is within two pixels of [w * M / h]. *)
Lemma scaled_side_bounds (w M h : Z) (fw fh fm scale : float) (z : Z) :
  1 <= w < 2 ^ 31 -> 1 <= M -> M < h -> h < 2 ^ 31 ->
  of_int w = Ok fw -> of_int h = Ok fh -> of_int M = Ok fm ->
  div fm fh = Ok scale -> to_int (mul fw scale) = Ok z ->
  w * M - 2 * h < z * h < w * M + h.
Proof.
  intros Hw HM HMh Hh Hfw Hfh Hfm Hdiv Hint.
  destruct (of_int_exact w) as (mw & ew & Hfw' & Hdw & Hlogw & Hew & Hmw); [lia|].
  destruct (of_int_exact h) as (mx & ex & Hfh' & Hdx & Hlogh & Hex & Hmx); [lia|].
  destruct (of_int_exact M) as (mm & em & Hfm' & Hdm & Hlog & Hem & Hmm); [lia|].
  assert (Z.log2 w < 31) by (apply Z.log2_lt_pow2; lia).
  assert (Z.log2 M <= Z.log2 h) by (apply Z.log2_le_mono; lia).
  rewrite Hfw' in Hfw. injection Hfw as <-.
  rewrite Hfh' in Hfh. injection Hfh as <-.
  rewrite Hfm' in Hfm. injection Hfm as <-.
  unfold div in Hdiv. cbn [is_zero] in Hdiv.
  assert (scale = SFdiv prec emax (S754_finite false mm em) (S754_finite false mx ex))
    as -> by congruence.
  clear Hdiv.
  destruct (div_finite mm mx em ex) as (q & l & Hq & Hqv); [done|done|lia|].
  rewrite Hq in Hint. clear Hq.
  pose proof (digits_bounds mm) as Hbm. pose proof (digits_bounds mx) as Hbx.
  pose proof (digits_bounds mw) as Hbw.
  rewrite Hdm in Hbm. rewrite Hdx in Hbx. rewrite Hdw in Hbw.
  change (53 - 1) with 52 in *.
  assert (2 ^ 52 <= Z.pos q < 2 ^ 54) as Hqb.
  { rewrite Hqv. split.
    - apply Z.div_le_lower_bound; lia.
    - apply Z.div_lt_upper_bound; lia. }
  pose proof (digits_range q 52 54 ltac:(lia) Hqb) as Hdq.
  destruct (round_aux_faithful false q (em - ex - 53) l)
    as (ms & es & Hs & Hes & Hds & Hsl & Hsu); [lia..|].
  rewrite Hs in Hint. clear Hs. cbn [mul SFmul xorb] in Hint.
  pose proof (digits_bounds ms) as Hbs. rewrite Hds in Hbs. change (53 - 1) with 52 in *.
  assert (2 ^ 104 <= Z.pos (mw * ms) < 2 ^ 106) as HPb.
  { rewrite Pos2Z.inj_mul. split; nia. }
  pose proof (digits_range (mw * ms) 104 106 ltac:(lia) HPb) as HdP.
  destruct (round_aux_faithful false (mw * ms) (ew + es) loc_Exact)
    as (R & eR & HR & HeR & HdR & HRl & HRu); [lia..|].
  rewrite HR in Hint. clear HR. cbn [to_int cond_Zopp] in Hint. injection Hint as <-.
  assert (Z.shiftl (Z.pos R) eR = Z.pos R / 2 ^ (- eR)) as ->.
  { apply Z.shiftl_div_pow2. lia. }
  assert (0 < 2 ^ (- eR)) as HE by (apply Z.pow_pos_nonneg; lia).
  set (z := Z.pos R / 2 ^ (- eR)).
  assert (z * 2 ^ (- eR) <= Z.pos R) as Hz1.
  { subst z. rewrite Z.mul_comm. apply Z.mul_div_le. lia. }
  assert (Z.pos R <= (z + 1) * 2 ^ (- eR)) as Hz2.
  { subst z. pose proof (Z.mod_pos_bound (Z.pos R) (2 ^ (- eR)) HE).
    pose proof (Z.div_mod (Z.pos R) (2 ^ (- eR)) ltac:(lia)). lia. }
  clearbody z.
  set (nq := Z.pos (digits2_pos q) - 53) in *.
  set (n := Z.pos (digits2_pos (mw * ms)) - 53) in *.
  pose proof (round_up_le (Z.pos q) nq ltac:(lia) ltac:(lia)) as Hq1.
  pose proof (round_up_le (Z.pos (mw * ms)) n ltac:(lia) ltac:(lia)) as HP1.
  pose proof (round_down_ge (Z.pos q) nq ltac:(lia) ltac:(lia)) as Hq1'.
  pose proof (round_down_ge (Z.pos (mw * ms)) n ltac:(lia) ltac:(lia)) as HP1'.
  pose proof (digits_bounds q) as Hq2.
  pose proof (digits_bounds (mw * ms)) as HP2.
  replace (Z.pos (digits2_pos q) - 1) with (52 + nq) in Hq2 by lia.
  replace (Z.pos (digits2_pos (mw * ms)) - 1) with (52 + n) in HP2 by lia.
  rewrite Z.pow_add_r in Hq2, HP2 by lia.
  pose proof (Z.mul_div_le (Z.pos mm * 2 ^ 53) (Z.pos mx) ltac:(lia)) as Hqx.
  rewrite <- Hqv in Hqx.
  assert (Z.pos mm * 2 ^ 53 <= Z.pos mx * Z.pos q + Z.pos mx) as Hqx'.
  { pose proof (Z.div_mod (Z.pos mm * 2 ^ 53) (Z.pos mx) ltac:(lia)) as Hdm'.
    pose proof (Z.mod_pos_bound (Z.pos mm * 2 ^ 53) (Z.pos mx) ltac:(lia)).
    rewrite <- Hqv in Hdm'. lia. }
  set (t := es - (em - ex - 53)) in *.
  set (u := eR - (ew + es)) in *.
  assert (2 ^ (- eR) * (2 ^ t * 2 ^ u) * 2 ^ (- ex) = 2 ^ (- ew) * 2 ^ (- em) * 2 ^ 53)
    as Hexp.
  { rewrite <- !Z.pow_add_r by lia. f_equal. lia. }
  assert (0 < 2 ^ t) as HT by (apply Z.pow_pos_nonneg; lia).
  assert (0 < 2 ^ u) as HU by (apply Z.pow_pos_nonneg; lia).
  assert (0 < 2 ^ (- em)) as HA by (apply Z.pow_pos_nonneg; lia).
  assert (0 < 2 ^ (- ex)) as HB by (apply Z.pow_pos_nonneg; lia).
  assert (0 < 2 ^ (- ew)) as HC by (apply Z.pow_pos_nonneg; lia).
  rewrite Pos2Z.inj_mul in HP1, HP2, HRl, HRu, HP1'.
  assert (2 ^ 104 * (z * h) <= (2 ^ 52 + 1) * (2 ^ 52 + 1) * (w * M)) as Hup.
  { apply (scale_arith_upper M (2 ^ (- em)) (Z.pos mm) h (2 ^ (- ex)) (Z.pos mx)
             w (2 ^ (- ew)) (Z.pos mw) (Z.pos q) (Z.pos ms)
             (2 ^ t) (2 ^ nq) (2 ^ n) (Z.pos R) (2 ^ u) (2 ^ (- eR)) z);
      first [done|lia]. }
  assert ((2 ^ 52 - 1) * ((2 ^ 52 - 1) * (2 ^ 52 - 1)) * (w * M)
          <= 2 ^ 156 * ((z + 1) * h)) as Hlow.
  { apply (scale_arith_lower M (2 ^ (- em)) (Z.pos mm) h (2 ^ (- ex)) (Z.pos mx)
             w (2 ^ (- ew)) (Z.pos mw) (Z.pos q) (Z.pos ms)
             (2 ^ t) (2 ^ nq) (2 ^ n) (Z.pos R) (2 ^ u) (2 ^ (- eR)) z);
      first [done|lia]. }
  clear - Hup Hlow Hw HM HMh Hh.
  assert (w * M <= 2 ^ 31 * M) as HwM by (apply Z.mul_le_mono_nonneg_r; lia).
  assert (0 <= w * M) as HwM0 by (apply Z.mul_nonneg_nonneg; lia).
  set (X := w * M) in *. set (Y := z * h) in *.
  replace ((z + 1) * h) with (Y + h) in Hlow by (subst Y; ring).
  lia.
Qed.

(** For image sizes the scaling arithmetic raises nothing. *)
Lemma scaled_side_defined (w M h : Z) :
  1 <= w < 2 ^ 31 -> 1 <= M -> M < h -> h < 2 ^ 31 ->
  exists fw fh fm scale z,
    of_int w = Ok fw /\ of_int h = Ok fh /\ of_int M = Ok fm /\
    div fm fh = Ok scale /\ to_int (mul fw scale) = Ok z.
Proof.
  intros Hw HM HMh Hh.
  destruct (of_int_exact w) as (mw & ew & Hfw' & Hdw & Hlogw & Hew & Hmw); [lia|].
  destruct (of_int_exact h) as (mx & ex & Hfh' & Hdx & Hlogh & Hex & Hmx); [lia|].
  destruct (of_int_exact M) as (mm & em & Hfm' & Hdm & Hlog & Hem & Hmm); [lia|].
  destruct (div_finite mm mx em ex) as (q & l & Hq & Hqv); [done|done|lia|].
  pose proof (digits_bounds mm) as Hbm. pose proof (digits_bounds mx) as Hbx.
  pose proof (digits_bounds mw) as Hbw.
  rewrite Hdm in Hbm. rewrite Hdx in Hbx. rewrite Hdw in Hbw.
  change (53 - 1) with 52 in *.
  assert (2 ^ 52 <= Z.pos q < 2 ^ 54) as Hqb.
  { rewrite Hqv. split.
    - apply Z.div_le_lower_bound; lia.
    - apply Z.div_lt_upper_bound; lia. }
  pose proof (digits_range q 52 54 ltac:(lia) Hqb) as Hdq.
  destruct (round_aux_faithful false q (em - ex - 53) l)
    as (ms & es & Hs & Hes & Hds & _); [lia..|].
  pose proof (digits_bounds ms) as Hbs. rewrite Hds in Hbs. change (53 - 1) with 52 in *.
  assert (2 ^ 104 <= Z.pos (mw * ms) < 2 ^ 106) as HPb.
  { rewrite Pos2Z.inj_mul. split; nia. }
  pose proof (digits_range (mw * ms) 104 106 ltac:(lia) HPb) as HdP.
  destruct (round_aux_faithful false (mw * ms) (ew + es) loc_Exact)
    as (R & eR & HR & _); [lia..|].
  eexists _, _, _, _, _. split; [exact Hfw'|]. split; [exact Hfh'|].
  split; [exact Hfm'|]. split; [reflexivity|].
  rewrite Hq, Hs. cbn [mul SFmul xorb]. rewrite HR. reflexivity.
Qed.

End PyFloatMore.

Lemma scale_fitting_images max_height (l : list Image) :
  Forall (fun im => height im <= max_height) l ->
  for_each (scale_image max_height) l = Ok l.
Proof.
  induction 1 as [|im l Him _ IH]; [done|].
  cbn [for_each]. rewrite IH. unfold scale_image.
  destruct (Z.ltb_spec max_height (height im)); [lia|done].
Qed.

Lemma compose_from_scaled open images max_pages max_height gap imgs scaled max_h :
  imgs <> [] ->
  for_each (load_image open) (slice_to images max_pages) = Ok imgs ->
  for_each (scale_image max_height) imgs = Ok scaled ->
  py_max (height <$> scaled) = Ok max_h ->
  compose_side_by_side open images max_pages max_height gap
    = composed ← Image_new "RGBA"
                   (py_sum (width <$> scaled) + gap * (Z.of_nat (length scaled) - 1))
                   max_h;
      Ok (convert "RGB" composed).
Proof.
  intros Hne Hload Hscale Hmax. unfold compose_side_by_side.
  rewrite Hload. cbn. destruct imgs; [done|]. rewrite Hscale. cbn.
  by rewrite Hmax.
Qed.

(** X13: images that already fit are composed as they are and the
    composition cannot fail: for 1 to [max_pages] opened images of
    non-negative size, none higher than [max_height], and a non-negative
    gap, the strip is an RGB image whose width is the sum of the original
    widths plus the gaps and whose height is the largest original
    height. *)
Theorem compose_fitting_images open (ims : list Image) max_pages max_height gap :
  ims <> [] -> Z.of_nat (length ims) <= max_pages -> 0 <= gap ->
  Forall (fun im => 0 <= width im /\ 0 <= height im <= max_height) ims ->
  exists strip,
    compose_side_by_side open (ArgImage <$> ims) max_pages max_height gap = Ok strip /\
    mode strip = "RGB" /\
    width strip = foldr Z.add 0 (width <$> ims) + gap * (Z.of_nat (length ims) - 1) /\
    height strip ∈ height <$> ims /\
    Forall (fun h => h <= height strip) (height <$> ims).
Proof.
  intros Hne Hlen Hgap Hfit.
  assert (for_each (load_image open) (ArgImage <$> ims) = Ok (convert "RGBA" <$> ims))
    as Hload.
  { clear. induction ims as [|im ims IH]; cbn; [done|]. by rewrite IH. }
  assert (for_each (scale_image max_height) (convert "RGBA" <$> ims)
          = Ok (convert "RGBA" <$> ims)) as Hscale.
  { apply scale_fitting_images, Forall_fmap. eapply Forall_impl; [exact Hfit|].
    intros im [_ [_ Him]]. exact Him. }
  assert (height <$> (convert "RGBA" <$> ims) = height <$> ims) as Hh
    by (by rewrite <- list_fmap_compose).
  assert (width <$> (convert "RGBA" <$> ims) = width <$> ims) as Hw
    by (by rewrite <- list_fmap_compose).
  destruct (py_max (height <$> ims)) as [max_h|] eqn:Hmax;
    [|destruct ims; [done|discriminate Hmax]].
  rewrite (compose_from_scaled open (ArgImage <$> ims) max_pages max_height gap
             (convert "RGBA" <$> ims) (convert "RGBA" <$> ims) max_h);
    [|by destruct ims|by rewrite slice_to_all by (by rewrite length_fmap)
     |done|by rewrite Hh].
  rewrite Hw, length_fmap.
  cbn. apply py_max_spec in Hmax as [Hin Hall].
  assert (0 <= max_h).
  { apply list_elem_of_fmap in Hin as (im & -> & Him).
    rewrite Forall_forall in Hfit. by destruct (Hfit im Him) as [_ [? _]]. }
  assert (0 <= foldr Z.add 0 (width <$> ims)).
  { clear -Hfit. induction Hfit as [|im ims [Him _] _ IH]; cbn; lia. }
  assert (1 <= Z.of_nat (length ims)) by (destruct ims; [done|cbn; lia]).
  unfold Image_new. rewrite py_sum_foldr.
  destruct (Z.ltb_spec (foldr Z.add 0 (width <$> ims) + gap * (Z.of_nat (length ims) - 1)) 0);
    [nia|].
  destruct (Z.ltb_spec max_h 0); [lia|]. cbn.
  eexists. split; [done|]. cbn. done.
Qed.

Lemma resize_size (im im' : Image) (new_w new_h : Z) :
  resize im new_w new_h = Ok im' ->
  width im' = new_w /\ height im' = new_h /\ mode im' = mode im /\
  ((width im = new_w /\ height im = new_h) \/ (1 <= new_w /\ 1 <= new_h)).
Proof.
  unfold resize. destruct (_ && _) eqn:Hsame.
  - intros [= <-]. apply andb_true_iff in Hsame as [H1 H2].
    split; [lia|]. split; [lia|]. split; [done|]. left. lia.
  - destruct (Z.ltb_spec new_w 1), (Z.ltb_spec new_h 1); cbn; try done.
    intros [= <-]. cbn. split; [done|]. split; [done|]. split; [done|]. right. lia.
Qed.

Lemma scale_image_taller_sizes (max_height : Z) (im im' : Image) :
  1 <= width im < 2 ^ 31 -> 1 <= max_height -> max_height < height im < 2 ^ 31 ->
  scale_image max_height im = Ok im' ->
  max_height - 1 <= height im' <= max_height /\
  width im * max_height - 2 * height im < width im' * height im
    < width im * max_height + height im /\
  1 <= width im' <= width im /\ 1 <= height im' /\
  mode im' = mode im.
Proof.
  intros Hw HM Hh. unfold scale_image.
  destruct (Z.ltb_spec max_height (height im)) as [_|?]; [|lia].
  intros H.
  apply bind_ok in H as (fh & Hfh & H). apply bind_ok in H as (fm & Hfm & H).
  apply bind_ok in H as (scale & Hscale & H). apply bind_ok in H as (fw & Hfw & H).
  apply bind_ok in H as (new_w & Hnw & H). apply bind_ok in H as (new_h & Hnh & H).
  pose proof (PyFloatMore.scaled_side_bounds (width im) max_height (height im)
                fw fh fm scale new_w Hw HM ltac:(lia) ltac:(lia) Hfw Hfh Hfm Hscale Hnw)
    as Hbw.
  pose proof (PyFloatMore.scaled_side_bounds (height im) max_height (height im)
                fh fh fm scale new_h ltac:(lia) HM ltac:(lia) ltac:(lia)
                Hfh Hfh Hfm Hscale Hnh)
    as Hbh.
  assert (max_height - 1 <= new_h <= max_height) as Hnew_h by nia.
  apply resize_size in H as (-> & -> & Hmode & Hcase).
  split; [done|]. split; [done|].
  destruct Hcase as [[_ Heq]|[Hw1 Hh1]]; [lia|].
  split; [|done]. split; [done|]. nia.
Qed.

(** On an ordinary page no step of the scaling raises. *)
Lemma scale_image_total (max_height : Z) (im : Image) :
  1 <= width im < 2 ^ 31 -> 2 <= max_height -> max_height < height im < 2 ^ 31 ->
  2 * height im <= width im * max_height ->
  exists im', scale_image max_height im = Ok im'.
Proof.
  intros Hw HM Hh Hwide.
  destruct (PyFloatMore.scaled_side_defined (width im) max_height (height im))
    as (fw & fh & fm & scale & new_w & Hfw & Hfh & Hfm & Hscale & Hnw); [lia..|].
  destruct (PyFloatMore.scaled_side_defined (height im) max_height (height im))
    as (fh' & fh'' & fm' & scale' & new_h & Hfh' & Hfh'' & Hfm' & Hscale' & Hnh); [lia..|].
  assert (fh' = fh) as -> by congruence. assert (fh'' = fh) as -> by congruence.
  assert (fm' = fm) as -> by congruence. assert (scale' = scale) as -> by congruence.
  pose proof (PyFloatMore.scaled_side_bounds (width im) max_height (height im)
                fw fh fm scale new_w Hw ltac:(lia) ltac:(lia) ltac:(lia)
                Hfw Hfh Hfm Hscale Hnw) as Hbw.
  pose proof (PyFloatMore.scaled_side_bounds (height im) max_height (height im)
                fh fh fm scale new_h ltac:(lia) ltac:(lia) ltac:(lia) ltac:(lia)
                Hfh Hfh Hfm Hscale Hnh) as Hbh.
  assert (1 <= new_w) by nia. assert (1 <= new_h) by nia.
  unfold scale_image.
  destruct (Z.ltb_spec max_height (height im)) as [_|?]; [|lia].
  rewrite Hfh. cbn. rewrite Hfm. cbn. rewrite Hscale. cbn. rewrite Hfw. cbn.
  rewrite Hnw. cbn. rewrite Hnh. cbn. unfold resize.
  destruct (_ && _); [by eexists|].
  destruct (Z.ltb_spec new_w 1), (Z.ltb_spec new_h 1); try lia. by eexists.
Qed.


(** X14: an image taller than the target comes out of the scaling step
    one pixel below the target or on it, never above; its new width is
    within two pixels of the width that keeps the aspect ratio,
    [w * max_height / h], and is not larger than the old one. *)
Theorem scale_image_taller (max_height : Z) (im im' : Image) :
  1 <= width im < 2 ^ 31 -> 1 <= max_height -> max_height < height im < 2 ^ 31 ->
  scale_image max_height im = Ok im' ->
  max_height - 1 <= height im' <= max_height /\
  width im * max_height - 2 * height im < width im' * height im
    < width im * max_height + height im /\
  1 <= width im' <= width im /\ 1 <= height im' /\
  mode im' = mode im.
Proof. apply scale_image_taller_sizes. Qed.

Lemma scale_image_taller_witness :
  1200 - 1 <= height {| mode := "RGBA"; width := 848; height := 1199 |} <= 1200 /\
  width a4_at_203dpi * 1200 - 2 * height a4_at_203dpi
    < width {| mode := "RGBA"; width := 848; height := 1199 |} * height a4_at_203dpi
    < width a4_at_203dpi * 1200 + height a4_at_203dpi /\
  1 <= width {| mode := "RGBA"; width := 848; height := 1199 |} <= width a4_at_203dpi /\
  1 <= height {| mode := "RGBA"; width := 848; height := 1199 |} /\
  mode {| mode := "RGBA"; width := 848; height := 1199 |} = mode a4_at_203dpi.
Proof.
  apply (scale_image_taller 1200 a4_at_203dpi).
  - vm_compute. split; [discriminate|reflexivity].
  - lia.
  - vm_compute. split; reflexivity.
  - vm_compute. reflexivity.
Defined.

(** X15: the scaling step cannot fail on an ordinary page: an image
    taller than a target of at least two pixels, of sides PIL can hold
    and wide enough that its scaled width reaches one pixel
    ([2 * h <= w * max_height]), is resized. *)
Theorem scale_image_defined (max_height : Z) (im : Image) :
  1 <= width im < 2 ^ 31 -> 2 <= max_height -> max_height < height im < 2 ^ 31 ->
  2 * height im <= width im * max_height ->
  exists im', scale_image max_height im = Ok im'.
Proof. apply scale_image_total. Qed.

Lemma scale_image_defined_witness : exists im', scale_image 1200 a4_at_203dpi = Ok im'.
Proof.
  apply (scale_image_defined 1200 a4_at_203dpi).
  - vm_compute. split; [discriminate|reflexivity].
  - lia.
  - vm_compute. split; reflexivity.
  - vm_compute. discriminate.
Defined.

(** X16: as soon as one of the composed pages is taller than
    [max_height], the strip is [max_height] or [max_height - 1] pixels
    high: strips of different commits can differ by one pixel. *)
Theorem compose_height_near open images max_pages max_height gap strip a im :
  (forall p im, open p = Ok im -> image_wf im) ->
  (forall im, ArgImage im ∈ images -> image_wf im) ->
  1 <= max_height ->
  compose_side_by_side open images max_pages max_height gap = Ok strip ->
  a ∈ slice_to images max_pages -> load_image open a = Ok im ->
  max_height < height im -> 1 <= width im ->
  max_height - 1 <= height strip <= max_height.
Proof.
  intros Hopen Hargs HM H Ha Hload_a Htall Hwide.
  apply compose_ok_inv in H as (imgs & scaled & max_h & _ & Hload & Hscale & Hmax & ->).
  cbn. apply py_max_spec in Hmax as [Hin Hall].
  apply for_each_ok_Forall2 in Hload, Hscale.
  assert (forall arg, arg ∈ slice_to images max_pages -> arg ∈ images) as Hsub.
  { intros arg Harg. unfold slice_to in Harg.
    apply list_elem_of_lookup in Harg as [i Hi].
    apply lookup_take_Some in Hi as [Hi _]. by apply list_elem_of_lookup_2 in Hi. }
  assert (forall arg im0, arg ∈ slice_to images max_pages ->
            load_image open arg = Ok im0 -> image_wf im0) as Hwf.
  { intros arg im0 Harg Hld. eapply (load_image_wf open arg); [done| |done].
    intros im1 ->. by apply Hargs, Hsub. }
  split.
  - apply list_elem_of_lookup in Ha as [i Hi].
    destruct (Forall2_lookup_l _ _ _ _ _ Hload Hi) as (im0 & Him0 & Hld).
    assert (im0 = im) as -> by congruence.
    destruct (Forall2_lookup_l _ _ _ _ _ Hscale Him0) as (im' & Him' & Hsc).
    assert (image_wf im) as [[_ Hw] [_ Hh]].
    { apply (Hwf a); [by apply list_elem_of_lookup_2 in Hi|done]. }
    apply scale_image_taller_sizes in Hsc as ([Hlow _] & _); [|lia..].
    rewrite Forall_forall in Hall.
    assert (height im' <= max_h); [|lia].
    apply Hall, list_elem_of_fmap. exists im'. split; [done|].
    by apply list_elem_of_lookup_2 in Him'.
  - apply list_elem_of_fmap in Hin as (im' & -> & Him').
    apply list_elem_of_lookup in Him' as [i Hi].
    destruct (Forall2_lookup_r _ _ _ _ _ Hscale Hi) as (im0 & Him0 & Hsc).
    destruct (Forall2_lookup_r _ _ _ _ _ Hload Him0) as (arg & Harg & Hld).
    apply (scale_image_height_le _ im0); [|done].
    apply list_elem_of_lookup_2 in Harg. by destruct (Hwf arg im0 Harg Hld).
Qed.

(** ** ensure_tools_exist *)

(** X17: the start-up check passes exactly when git and pdftoppm are
    found, whatever else is installed: it does not look for latexmk or
    pdflatex; and it fails with a [RuntimeError] only. *)
Theorem ensure_tools_exist_spec (wh : string -> option string) :
  (ensure_tools_exist wh = Ok () <-> is_Some (wh "git") /\ is_Some (wh "pdftoppm")) /\
  (forall e, ensure_tools_exist wh = Raise e -> exists msg, e = RuntimeError msg).
Proof.
  split.
  - unfold ensure_tools_exist. cbn.
    destruct (wh "git") as [g|], (wh "pdftoppm") as [p|]; cbn; split;
      try done; try (intros [[? ?] [? ?]]; done); intros _; split; by eexists.
  - intros e. unfold ensure_tools_exist. destruct (filter _ _); [done|].
    intros [= <-]. by eexists.
Qed.

(** ** A machine without LaTeX *)

Lemma build_latex_no_tools wh mk e pdf_name workdir build_outdir :
  wh "latexmk" = None -> wh "pdflatex" = None ->
  is_ok (build_latex wh mk e pdf_name workdir build_outdir) = false.
Proof. intros H1 H2. unfold build_latex. by rewrite H1, H2. Qed.

Lemma commits_loop_no_latex w a repo_path outdir pdf_name cs s s' exc :
  which w "latexmk" = None -> which w "pdflatex" = None ->
  commits_loop w a repo_path outdir pdf_name cs s = (s', exc) ->
  composed_pngs s' = composed_pngs s /\
  (Forall (fun st => st.2 = SKIPPED Build) (statuses s) ->
   Forall (fun st => st.2 = SKIPPED Build) (statuses s')).
Proof.
  intros H1 H2. revert s. induction cs as [|[idx c] cs IH]; intros s; cbn [commits_loop].
  - by intros [= <- <-].
  - unfold process_commit. destruct (checkout _ _ _) as [r [u|e]];
      [|by intros [= <- <-]].
    unfold process_checked_out.
    destruct (tempdir (commit_env w c)) as [workdir|]; cbn; [|by intros [= <- <-]].
    destruct (mkdir w (path_join workdir "out")); cbn; [|by intros [= <- <-]].
    pose proof (build_latex_no_tools (which w) (mkdir w) (commit_env w c) pdf_name
                  repo_path (path_join workdir "out") H1 H2) as Hb.
    destruct (build_latex _ _ _ _ _ _); [done|].
    intros H. apply IH in H as [-> Hst]. split; [done|].
    intros Hall. apply Hst. cbn. apply Forall_app. split; [done|].
    by repeat constructor.
Qed.

(** X18: on a machine with neither latexmk nor pdflatex the start-up
    check still passes, but no frame is ever written: every commit that
    gets a status is skipped at the build stage, and a run that reaches
    the end of the loop ends with [sys.exit(2)]. *)
Theorem no_latex_no_frames w a pdf_name r0 :
  which w "latexmk" = None -> which w "pdflatex" = None ->
  let r := main w (Parsed a) pdf_name r0 in
  run_pngs r = [] /\ run_animation r = None /\
  Forall (fun st => st.2 = SKIPPED Build) (run_statuses r) /\
  (run_loop_done r = true -> run_outcome r = Exit 2).
Proof.
  intros H1 H2 r. subst r.
  main_cases w a; cbn; try done;
    apply (commits_loop_no_latex _ _ _ _ _ _ _ _ _ H1 H2) in Hloop as [Hp Hst];
    cbn in Hp, Hst; specialize (Hst (Forall_nil_2 _)).
  - done.
  - rewrite Hp in Hasm. cbn in Hasm. injection Hasm as <- <-. done.
Qed.

Lemma no_latex_no_frames_witness :
  run_pngs (main (demo_world which_no_latex
                    always true always always) (Parsed demo_args) "main.pdf" demo_repo) = [] /\
  run_outcome (main (demo_world which_no_latex
                       always true always always) (Parsed demo_args) "main.pdf" demo_repo) = Exit 2.
Proof.
  destruct (no_latex_no_frames
              (demo_world which_no_latex
                 always true always always) demo_args "main.pdf" demo_repo)
    as (Hp & _ & _ & Hexit).
  - vm_compute. reflexivity.
  - vm_compute. reflexivity.
  - split; [exact Hp|]. apply Hexit. vm_compute. reflexivity.
Defined.

(** ** Before the loop *)

(** X19: nothing catches a failure of the set-up after the start-up
    checks: when both [git rev-parse] commands fail, when [git log]
    fails, or when the output directory cannot be created, the exception
    ends the run (status 1) before anything is checked out.  The
    exception of the first [git rev-parse] alone is swallowed. *)
Theorem setup_failures_uncaught w a pdf_name r0 e :
  path_exists w (resolve w (arg_repo a)) = true ->
  ensure_tools_exist (which w) = Ok () ->
  path_exists w (path_join (resolve w (arg_repo a)) (arg_tex a)) = true ->
  (is_ok (git_rev_parse_abbrev_ref w) = false /\ git_rev_parse w = Raise e) \/
  (is_ok (record_head w) = true /\ git_log w = Raise e) \/
  (is_ok (record_head w) = true /\
   (exists c cs, get_commits_touching_file (git_log w) = Ok (c :: cs)) /\
   mkdir w (resolve w (arg_out_dir a)) = Raise e) ->
  let r := main w (Parsed a) pdf_name r0 in
  run_outcome r = Uncaught e /\ exit_status (run_outcome r) = 1 /\ run_repo r = r0.
Proof.
  intros Hrepo Htools Htex Hfail r. subst r. unfold main.
  rewrite Hrepo, Htools, Htex. cbn [negb].
  destruct Hfail as [[Habbrev Hrev]|[[Hhead Hlog]|(Hhead & (c & cs & Hlog) & Hmk)]].
  - unfold record_head. destruct (git_rev_parse_abbrev_ref w); [done|].
    by rewrite Hrev.
  - destruct (record_head w); [|done]. unfold get_commits_touching_file.
    by rewrite Hlog.
  - destruct (record_head w); [|done]. by rewrite Hlog, Hmk.
Qed.

(** ** The recorded reference *)

(** X22: a run that starts on a detached HEAD is not taken back to its
    commit.  There [git rev-parse --abbrev-ref HEAD] succeeds and prints
    [HEAD], so that the hash of line 215 is never asked for; the name
    [HEAD] is recorded, and checking it out after the loop moves nothing,
    whether git reports success or not: the repository stays on the last
    commit of the list. *)
Theorem detached_head_not_restored w a pdf_name r0 out c :
  let r := main w (Parsed a) pdf_name r0 in
  git_rev_parse_abbrev_ref w = Ok out -> strip out = "HEAD" ->
  run_loop_done r = true ->
  last (run_commits r) = Some c -> c <> "HEAD" ->
  run_recorded r = Some "HEAD" /\
  last (checkouts (run_repo r)) = Some "HEAD" /\
  head (run_repo r) = c.
Proof.
  intros r Hout Hstrip Hdone Hlast Hc.
  apply main_final_repo in Hdone as (original & Hhead & Hrec & _ & Hco & Hh).
  fold r in Hrec, Hco, Hh. cbn zeta in Hh.
  unfold record_head in Hhead. rewrite Hout, Hstrip in Hhead. injection Hhead as <-.
  split; [done|]. split.
  - by rewrite Hco, !app_assoc, last_snoc.
  - rewrite Hh. cbn. rewrite andb_false_r. by apply foldl_checked_out_last.
Qed.

(** ** get_commits_touching_file *)

Lemma string_app_cons (x : Ascii.ascii) (a b : string) :
  String x a +:+ b = String x (a +:+ b).
Proof. reflexivity. Qed.

Lemma string_app_nil_l (b : string) : "" +:+ b = b.
Proof. reflexivity. Qed.

Lemma string_app_assoc (a b c : string) : (a +:+ b) +:+ c = a +:+ (b +:+ c).
Proof.
  induction a as [|x a IH]; [done|]. by rewrite !string_app_cons, IH.
Qed.

Lemma string_app_nil_r (a : string) : a +:+ "" = a.
Proof. induction a as [|x a IH]; [done|]. by rewrite string_app_cons, IH. Qed.

Lemma rev_app_acc (s acc : string) :
  String.rev_app s acc = String.rev_app s "" +:+ acc.
Proof.
  revert acc. induction s as [|c s IH]; intros acc; cbn; [done|].
  rewrite (IH (String c acc)), (IH (String c "")).
  by rewrite string_app_assoc.
Qed.

Lemma rev_app_app (a b acc : string) :
  String.rev_app (a +:+ b) acc = String.rev_app b (String.rev_app a acc).
Proof.
  revert acc. induction a as [|c a IH]; intros acc; [done|].
  rewrite string_app_cons. cbn. apply IH.
Qed.

Lemma string_rev_app (a b : string) :
  String.rev (a +:+ b) = String.rev b +:+ String.rev a.
Proof. unfold String.rev. by rewrite rev_app_app, rev_app_acc. Qed.

Lemma rev_app_rev_app (s acc acc' : string) :
  String.rev_app (String.rev_app s acc) acc' = String.rev_app acc (s +:+ acc').
Proof.
  revert acc acc'. induction s as [|c s IH]; intros acc acc'; cbn; [done|].
  by rewrite IH, string_app_cons.
Qed.

Lemma string_rev_involutive (s : string) : String.rev (String.rev s) = s.
Proof.
  unfold String.rev. rewrite rev_app_rev_app. cbn. apply string_app_nil_r.
Qed.

Lemma lstrip_no_lead (s : string) : no_lead (lstrip s).
Proof.
  induction s as [|c s IH]; cbn; [done|].
  destruct (is_space c) eqn:Hc; [done|]. cbn. done.
Qed.

Lemma lstrip_id (s : string) : no_lead s -> lstrip s = s.
Proof. destruct s as [|c s]; cbn; [done|]. by intros ->. Qed.

Lemma lstrip_split (s : string) : exists sp, s = sp +:+ lstrip s.
Proof.
  induction s as [|c s [sp IH]]; cbn; [by exists ""|].
  destruct (is_space c); [|by exists ""].
  exists (String c sp). by rewrite string_app_cons, <- IH.
Qed.

Lemma rstrip_no_lead (t : string) :
  no_lead t -> no_lead (String.rev (lstrip (String.rev t))).
Proof.
  intros Ht. destruct (lstrip_split (String.rev t)) as [sp Hsp].
  apply (f_equal String.rev) in Hsp.
  rewrite string_rev_involutive, string_rev_app in Hsp.
  destruct (String.rev (lstrip (String.rev t))) as [|c x]; [done|].
  rewrite Hsp, string_app_cons in Ht. exact Ht.
Qed.

Lemma strip_idemp (s : string) : strip (strip s) = strip s.
Proof.
  unfold strip at 1.
  assert (no_lead (strip s)) as H1 by apply rstrip_no_lead, lstrip_no_lead.
  rewrite (lstrip_id _ H1).
  assert (no_lead (String.rev (strip s))) as H2.
  { unfold strip. rewrite string_rev_involutive. apply lstrip_no_lead. }
  by rewrite (lstrip_id _ H2), string_rev_involutive.
Qed.

(** X20: the commit list keeps the order of the lines of [git log],
    drops the blank ones, and holds only non-empty hashes without
    surrounding white space; a failing [git log] is passed on.  White
    space is what [str.strip()] removes, [is_space]: a unit separator or
    a no-break space round a hash goes like a blank does. *)
Theorem get_commits_touching_file_clean (log : result (list string)) :
  match get_commits_touching_file log with
  | Ok hashes =>
      exists lines,
        log = Ok lines /\
        hashes `sublist_of` strip <$> lines /\
        Forall (fun h => h <> EmptyString /\ strip h = h) hashes /\
        (forall l, l ∈ lines -> strip l <> EmptyString -> strip l ∈ hashes)
  | Raise e => log = Raise e
  end.
Proof.
  unfold get_commits_touching_file. destruct log as [lines|e]; [|done].
  exists lines. split; [done|]. split; [apply sublist_filter|]. split.
  - apply Forall_forall. intros h Hh.
    apply list_elem_of_filter in Hh as [Hne Hin]. split; [done|].
    apply list_elem_of_fmap in Hin as (l & -> & _). apply strip_idemp.
  - intros l Hl Hne. apply list_elem_of_filter. split; [done|].
    by apply list_elem_of_fmap_2.
Qed.

(** ** Names of the frames *)

Lemma pretty_N_char_digit (x : N) : is_digit (pretty_N_char x) = true.
Proof. by destruct x as [|[[[[]|[]|]|[[]|[]|]|]|[[[]|[]|]|[[]|[]|]|]|]]. Qed.

Lemma pretty_N_char_nonzero (x : N) :
  (0 < x)%N -> pretty_N_char x <> Ascii.ascii_of_nat 48.
Proof. by destruct x as [|[[[[]|[]|]|[[]|[]|]|]|[[[]|[]|]|[[]|[]|]|]|]]. Qed.

Lemma pretty_N_go_numeral (x : N) (s : string) :
  (0 < x)%N -> all_digits s -> numeral (pretty_N_go x s).
Proof.
  revert s. induction (N.lt_wf_0 x) as [x _ IH]. intros s Hx Hs.
  rewrite pretty_N_go_step by done.
  destruct (N.eq_dec (x `div` 10)%N 0%N) as [Hz|Hnz].
  - rewrite Hz, pretty_N_go_0. cbn. split; [|split; [apply pretty_N_char_digit|done]].
    apply pretty_N_char_nonzero.
    assert (x `mod` 10 = x)%N as ->; [|done].
    apply N.mod_small. by apply N.div_small_iff in Hz.
  - apply IH.
    + apply N.div_lt; lia.
    + by apply N.neq_0_lt_0.
    + cbn. split; [apply pretty_N_char_digit|done].
Qed.

Lemma pretty_Z_numeral (z : Z) : 1 <= z -> numeral (pretty z).
Proof.
  destruct z as [|p|p]; [lia| |lia]. intros _.
  unfold pretty, pretty_Z, pretty, pretty_positive, pretty, pretty_N.
  destruct (decide (N.pos p = 0%N)); [done|].
  by apply pretty_N_go_numeral.
Qed.

Lemma zeros_numeral_cancel (k1 k2 : nat) (d1 d2 t1 t2 : string) :
  numeral d1 -> numeral d2 ->
  zeros k1 +:+ d1 +:+ t1 = zeros k2 +:+ d2 +:+ t2 ->
  d1 +:+ t1 = d2 +:+ t2.
Proof.
  intros H1 H2. revert k2. induction k1 as [|k1 IH]; intros [|k2]; cbn [zeros].
  - done.
  - destruct d1 as [|c d1]; [done|]. destruct H1 as [Hc _].
    rewrite !string_app_cons. cbn. intros [= -> _]. done.
  - destruct d2 as [|c d2]; [done|]. destruct H2 as [Hc _].
    rewrite !string_app_cons. cbn. intros [= <- _]. done.
  - rewrite !string_app_cons. cbn. intros [= H]. by apply IH in H.
Qed.

Lemma digits_until_underscore (d1 d2 r1 r2 : string) :
  all_digits d1 -> all_digits d2 ->
  d1 +:+ String (Ascii.ascii_of_nat 95) r1 = d2 +:+ String (Ascii.ascii_of_nat 95) r2 ->
  d1 = d2.
Proof.
  revert d2. induction d1 as [|c d1 IH]; intros [|c' d2]; cbn [all_digits].
  - done.
  - intros _ [Hc _]. rewrite string_app_cons. cbn. intros [= <- _]. done.
  - intros [Hc _] _. rewrite string_app_cons. cbn. intros [= -> _]. done.
  - intros [_ H1] [_ H2]. rewrite !string_app_cons. intros [= -> H].
    f_equal. by apply IH.
Qed.

Lemma numeral_all_digits (s : string) : numeral s -> all_digits s.
Proof. destruct s; [done|]. by intros [_ ?]. Qed.

(** The name of a frame tells the index of its commit. *)
Lemma out_png_index (outdir : string) (i j : Z) (c c' : string) :
  1 <= i -> 1 <= j -> out_png outdir i c = out_png outdir j c' -> i = j.
Proof.
  intros Hi Hj. unfold out_png, path_join. intros H.
  apply (inj (String.append outdir)) in H.
  apply (inj (String.append "/")) in H.
  apply (inj (String.append "composed_")) in H.
  unfold fmt_04d in H.
  destruct (Z.ltb_spec i 0); [lia|]. destruct (Z.ltb_spec j 0); [lia|].
  pose proof (pretty_Z_numeral i Hi) as Ni. pose proof (pretty_Z_numeral j Hj) as Nj.
  rewrite !string_app_assoc in H.
  change ("_" +:+ ?r) with (String (Ascii.ascii_of_nat 95) r) in H.
  apply zeros_numeral_cancel in H; [|done..].
  apply digits_until_underscore in H; [|by apply numeral_all_digits..].
  by apply (inj pretty) in H.
Qed.

Lemma main_pngs_kept w a pdf_name r0 :
  exists kept,
    kept `sublist_of` enumerate1 (run_commits (main w (Parsed a) pdf_name r0)) /\
    run_pngs (main w (Parsed a) pdf_name r0) = png_of (resolve w (arg_out_dir a)) <$> kept.
Proof.
  main_cases w a; cbn;
    try (exists []; split; [apply sublist_nil_l|done]);
    apply commits_loop_pngs in Hloop as (kept & Hsub & ->); by exists kept.
Qed.

Lemma NoDup_fmap_via {A B C} (f : A -> B) (g : A -> C) (l : list A) :
  (forall x y, x ∈ l -> y ∈ l -> f x = f y -> g x = g y) ->
  NoDup (g <$> l) -> NoDup (f <$> l).
Proof.
  induction l as [|x l IH]; cbn; [constructor|].
  intros Hfg Hg. apply NoDup_cons in Hg as [Hx Hg]. apply NoDup_cons. split.
  - intros Hin. apply list_elem_of_fmap in Hin as (y & Hxy & Hy). apply Hx.
    apply list_elem_of_fmap. exists y. split; [|done].
    apply Hfg; [apply list_elem_of_here|by apply list_elem_of_further|done].
  - apply IH; [|done]. intros y z Hy Hz.
    apply Hfg; by apply list_elem_of_further.
Qed.

(** X21: the strips of one run have pairwise different file names: the
    zero-padded index in the name tells the commits apart, so that no
    strip overwrites another, even for commits with the same first eight
    characters. *)
Theorem frame_names_distinct w a pdf_name r0 :
  NoDup (run_pngs (main w (Parsed a) pdf_name r0)).
Proof.
  destruct (main_pngs_kept w a pdf_name r0) as (kept & Hsub & ->).
  set (cs := run_commits (main w (Parsed a) pdf_name r0)) in *.
  assert ((enumerate1 cs).*1 = seqZ 1 (Z.of_nat (length cs))) as Hfst.
  { unfold enumerate1. apply fst_zip. rewrite length_seqZ. lia. }
  apply (NoDup_fmap_via _ fst).
  - intros x y Hx Hy.
    assert (forall z, z ∈ kept -> 1 <= z.1) as Hpos.
    { intros z Hz. eapply elem_of_sublist in Hz; [|exact Hsub].
      apply (list_elem_of_fmap_2 fst) in Hz. rewrite Hfst in Hz.
      apply elem_of_seqZ in Hz. lia. }
    unfold png_of. apply out_png_index; by apply Hpos.
  - apply (sublist_NoDup _ ((enumerate1 cs).*1)).
    + rewrite Hfst. apply NoDup_seqZ.
    + by apply fmap_sublist.
Qed.

(** ** Further properties on concrete runs *)

Lemma compose_fitting_images_witness :
  exists strip,
    compose_side_by_side no_open (ArgImage <$> fitting_pages) 10 1200 8 = Ok strip /\
    mode strip = "RGB" /\
    width strip
      = foldr Z.add 0 (width <$> fitting_pages)
        + 8 * (Z.of_nat (length fitting_pages) - 1) /\
    height strip ∈ height <$> fitting_pages /\
    Forall (fun h => h <= height strip) (height <$> fitting_pages).
Proof.
  apply (compose_fitting_images no_open fitting_pages 10 1200 8).
  - discriminate.
  - vm_compute. discriminate.
  - lia.
  - unfold fitting_pages. repeat constructor; vm_compute; discriminate.
Defined.

Lemma compose_height_near_witness : 1200 - 1 <= height (rgb 1862 1200) <= 1200.
Proof.
  apply (compose_height_near no_open two_pages 10 1200 8 (rgb 1862 1200)
           (ArgImage (rgb 1275 1650)) {| mode := "RGBA"; width := 1275; height := 1650 |}).
  - intros p im H. discriminate H.
  - intros im Hin. unfold two_pages in Hin.
    apply elem_of_cons in Hin as [Hin|Hin];
      [injection Hin as ->; vm_compute; intuition discriminate|].
    apply elem_of_cons in Hin as [Hin|Hin];
      [injection Hin as ->; vm_compute; intuition discriminate|].
    by apply elem_of_nil in Hin.
  - lia.
  - vm_compute. reflexivity.
  - vm_compute. apply list_elem_of_here.
  - vm_compute. reflexivity.
  - vm_compute. reflexivity.
  - vm_compute. discriminate.
Defined.

Lemma ensure_tools_exist_spec_witness :
  ensure_tools_exist demo_which = Ok () /\
  exists msg, RuntimeError
                "Missing required tools in PATH: pdftoppm. Install them and retry."
              = RuntimeError msg.
Proof.
  destruct (ensure_tools_exist_spec demo_which) as [Hok _].
  destruct (ensure_tools_exist_spec which_no_pdftoppm) as [_ Herr].
  split.
  - apply Hok. split; vm_compute; by eexists.
  - apply Herr. vm_compute. reflexivity.
Defined.

Lemma setup_failures_uncaught_witness :
  run_outcome (main (without_rev_parse (demo_world demo_which always true always always))
                 (Parsed demo_args) "main.pdf" demo_repo)
    = Uncaught (CalledProcessError "git rev-parse HEAD") /\
  exit_status (run_outcome (main (without_rev_parse
                                    (demo_world demo_which always true always always))
                              (Parsed demo_args) "main.pdf" demo_repo)) = 1 /\
  run_repo (main (without_rev_parse (demo_world demo_which always true always always))
              (Parsed demo_args) "main.pdf" demo_repo) = demo_repo.
Proof.
  apply (setup_failures_uncaught
           (without_rev_parse (demo_world demo_which always true always always))
           demo_args "main.pdf" demo_repo (CalledProcessError "git rev-parse HEAD")).
  - vm_compute. reflexivity.
  - vm_compute. reflexivity.
  - vm_compute. reflexivity.
  - left. split; vm_compute; reflexivity.
Defined.

Lemma get_commits_touching_file_clean_witness :
  exists lines,
    Ok odd_log_lines = Ok lines /\
    ["abc"; "1a1a1a1a"; "2b2b2b2b"] `sublist_of` strip <$> lines /\
    Forall (fun h => h <> EmptyString /\ strip h = h) ["abc"; "1a1a1a1a"; "2b2b2b2b"] /\
    (forall l, l ∈ lines -> strip l <> EmptyString ->
               strip l ∈ ["abc"; "1a1a1a1a"; "2b2b2b2b"]).
Proof.
  exact (get_commits_touching_file_clean (Ok odd_log_lines)).
Defined.

Lemma detached_head_not_restored_witness :
  let r := main (detached_at "0f0f0f0f0f0f0f0f"
                   (demo_world demo_which always true always always))
             (Parsed demo_args) "main.pdf" (detached_repo "0f0f0f0f0f0f0f0f") in
  run_recorded r = Some "HEAD" /\
  last (checkouts (run_repo r)) = Some "HEAD" /\
  head (run_repo r) = "3c3c3c3c3c3c3c3c".
Proof.
  apply (detached_head_not_restored
           (detached_at "0f0f0f0f0f0f0f0f" (demo_world demo_which always true always always))
           demo_args "main.pdf" (detached_repo "0f0f0f0f0f0f0f0f")
           ("HEAD" +:+ newline) "3c3c3c3c3c3c3c3c").
  - reflexivity.
  - vm_compute. reflexivity.
  - vm_compute. reflexivity.
  - vm_compute. reflexivity.
  - discriminate.
Defined.

